(** * The sleeping-barber Shop monitor (Shop.h, Shop.cpp, driver.cpp)

    The Shop class is a monitor: every method body runs with [mutex_] held,
    and gives the mutex up only inside [pthread_cond_wait] or at its final
    unlock.  A method is therefore a sequence of atomic sections, cut at the
    waits.  Each section is embedded as a function on the Shop's fields in a
    small state-and-failure monad; the threads of the driver are interleaved
    by a step relation that runs one section at a time.

    - [int] is modelled by [Z].  Signed overflow is undefined in C++, so an
      arithmetic result outside the 32-bit range makes a section fail.
    - The arrays allocated by the constructor are lists; an access outside
      them is undefined in C++ and makes a section fail as well.
    - [pthread_cond_wait] may return without a signal (POSIX allows spurious
      wake-ups), so in the step relation a blocked thread may resume at any
      time; a signalled wake-up is a special case. *)

From Stdlib Require Import ZArith Lia.
From stdpp Require Import base list strings pretty relations.

Local Open Scope Z_scope.

(** ** Integers *)

Definition INT_MIN : Z := -2147483648.
Definition INT_MAX : Z := 2147483647.

Definition is_int (z : Z) : bool := (INT_MIN <=? z) && (z <=? INT_MAX).

(** Shop.h, lines 31-32. *)
Definition kDefaultNumChairs : Z := 3.
Definition kDefaultBarbers : Z := 1.

(** ** The fields of the class (Shop.h, lines 124-131) *)

Record Shop := mkShop {
  max_waiting_cust_ : Z;
  max_working_barb_ : Z;
  waiting_customers_ : Z;
  sleeping_barbs_ : Z;
  cust_drops_ : Z;
  customer_in_chair_ : list Z;
  in_service_ : list bool;
  money_paid_ : list bool
}.

Definition set_waiting_customers_ (v : Z) (s : Shop) : Shop :=
  mkShop (max_waiting_cust_ s) (max_working_barb_ s) v (sleeping_barbs_ s)
         (cust_drops_ s) (customer_in_chair_ s) (in_service_ s) (money_paid_ s).

Definition set_sleeping_barbs_ (v : Z) (s : Shop) : Shop :=
  mkShop (max_waiting_cust_ s) (max_working_barb_ s) (waiting_customers_ s) v
         (cust_drops_ s) (customer_in_chair_ s) (in_service_ s) (money_paid_ s).

Definition set_cust_drops_ (v : Z) (s : Shop) : Shop :=
  mkShop (max_waiting_cust_ s) (max_working_barb_ s) (waiting_customers_ s)
         (sleeping_barbs_ s) v (customer_in_chair_ s) (in_service_ s)
         (money_paid_ s).

Definition set_customer_in_chair_ (v : list Z) (s : Shop) : Shop :=
  mkShop (max_waiting_cust_ s) (max_working_barb_ s) (waiting_customers_ s)
         (sleeping_barbs_ s) (cust_drops_ s) v (in_service_ s) (money_paid_ s).

Definition set_in_service_ (v : list bool) (s : Shop) : Shop :=
  mkShop (max_waiting_cust_ s) (max_working_barb_ s) (waiting_customers_ s)
         (sleeping_barbs_ s) (cust_drops_ s) (customer_in_chair_ s) v
         (money_paid_ s).

Definition set_money_paid_ (v : list bool) (s : Shop) : Shop :=
  mkShop (max_waiting_cust_ s) (max_working_barb_ s) (waiting_customers_ s)
         (sleeping_barbs_ s) (cust_drops_ s) (customer_in_chair_ s)
         (in_service_ s) v.

(** The condition variables (Shop.h, lines 136-141); the three arrays of
    conditions are indexed by the barber. *)
Inductive cond :=
| cond_customers_waiting_
| cond_customer_served_ (barbID : Z)
| cond_barber_paid_ (barbID : Z)
| cond_barber_sleeping_ (barbID : Z).

(** What a section does that another thread or the console can observe, in
    program order: a line on [cout], a signal, a store into one of the three
    per-barber arrays. *)
Inductive event :=
| Out (line : string)
| Signal (c : cond)
| StoreChair (barbID : Z) (custID : Z)
| StoreService (barbID : Z) (v : bool)
| StorePaid (barbID : Z) (v : bool).

(** ** The monad of an atomic section

    A computation reads and writes the Shop, appends to the log of events,
    and fails ([None]) on undefined behaviour. *)

Definition M (A : Type) : Type := Shop → list event → option (A * Shop * list event).

Definition ret {A} (a : A) : M A := λ s log, Some (a, s, log).

Definition bind {A B} (m : M A) (f : A → M B) : M B :=
  λ s log, match m s log with
           | Some (a, s', log') => f a s' log'
           | None => None
           end.

Definition undefined {A} : M A := λ _ _, None.

Definition gets {A} (f : Shop → A) : M A := λ s log, Some (f s, s, log).

Definition modify (f : Shop → Shop) : M unit := λ s log, Some (tt, f s, log).

Definition emit (e : event) : M unit := λ s log, Some (tt, s, log ++ [e]).

Global Instance M_ret : MRet M := @ret.
Global Instance M_bind : MBind M := λ A B f m, bind m f.

(** The value of an [int] expression; overflow is undefined. *)
Definition int (z : Z) : M Z := if is_int z then ret z else undefined.

Definition in_bounds {A} (arr : list A) (i : Z) : bool :=
  (0 <=? i) && (i <? Z.of_nat (length arr)).

(** [arr[i]] as an rvalue. *)
Definition load {A} (arr : Shop → list A) (i : Z) : M A :=
  λ s log, if in_bounds (arr s) i
           then match arr s !! Z.to_nat i with
                | Some v => Some (v, s, log)
                | None => None
                end
           else None.

(** [arr[i] = v]. *)
Definition store {A} (arr : Shop → list A) (upd : list A → Shop → Shop)
    (ev : Z → A → event) (i : Z) (v : A) : M unit :=
  λ s log, if in_bounds (arr s) i
           then Some (tt, upd (<[Z.to_nat i := v]> (arr s)) s, log ++ [ev i v])
           else None.

Definition store_chair : Z → Z → M unit :=
  store customer_in_chair_ set_customer_in_chair_ StoreChair.
Definition store_service : Z → bool → M unit :=
  store in_service_ set_in_service_ StoreService.
Definition store_paid : Z → bool → M unit :=
  store money_paid_ set_money_paid_ StorePaid.

(** [&cond_xxx_[barbID]] must point into an array of [max_working_barb_]
    conditions. *)
Definition cond_ok (c : cond) (s : Shop) : bool :=
  match c with
  | cond_customers_waiting_ => true
  | cond_customer_served_ b | cond_barber_paid_ b | cond_barber_sleeping_ b =>
      (0 <=? b) && (b <? max_working_barb_ s)
  end.

Definition pthread_cond_signal (c : cond) : M unit :=
  λ s log, if cond_ok c s then Some (tt, s, log ++ [Signal c]) else None.

(** ** Shop::int2string and Shop::print (Shop.cpp, lines 113-143) *)

Definition int2string (i : Z) : string := pretty i.

Definition print (person : Z) (message : string) : M unit :=
  if person <=? 0
  then (p ← int (- person);
        emit (Out ("barber  [" +:+ int2string p +:+ "]: " +:+ message)))
  else emit (Out ("customer[" +:+ int2string person +:+ "]: " +:+ message)).

(** ** Shop::assignBarber (Shop.cpp, lines 233-245)

    [assignBarber_from n barbID] is the [for] loop with [n] iterations left
    and the loop variable at [barbID]; the loop starts at 0 and runs while
    [barbID < max_working_barb_]. *)

Fixpoint assignBarber_from (n : nat) (barbID custID : Z) : M Z :=
  match n with
  | O => ret (-1)
  | S n' =>
      c ← load customer_in_chair_ barbID;
      if c =? 0
      then (store_chair barbID custID;;
            sb ← gets sleeping_barbs_;
            sb' ← int (sb - 1);
            modify (set_sleeping_barbs_ sb');;
            ret barbID)
      else assignBarber_from n' (barbID + 1) custID
  end.

Definition assignBarber (custID : Z) : M Z :=
  n ← gets max_working_barb_;
  assignBarber_from (Z.to_nat n) 0 custID.

(** ** Program points

    One constructor per place where a thread can hold no lock: the entry of
    each method, and the return of each [pthread_cond_wait]. *)
Inductive pc :=
| VisitShop (custID : Z)               (* line 161 *)
| VisitShop_woken (custID : Z)         (* line 193, the wait returns *)
| LeaveShop (custID barberID : Z)      (* line 260 *)
| LeaveShop_loop (custID barbID : Z)   (* line 267, the wait returns *)
| HelloCustomer (barbID : Z)           (* line 295 *)
| HelloCustomer_loop (barbID : Z)      (* lines 301 and 306, the wait returns *)
| ByeCustomer (barbID : Z)             (* line 329 *)
| ByeCustomer_woken (barbID : Z)       (* line 339, the wait returns *)
| Get_cust_drops.                      (* line 356 *)

(** A section ends in a wait on a condition, to be resumed at a program
    point, or in the method's return ([None] for a [void] method). *)
Inductive outcome :=
| Block (c : cond) (k : pc)
| Return (r : option Z).

Definition pthread_cond_wait (c : cond) (k : pc) : M outcome :=
  λ s log, if cond_ok c s then Some (Block c k, s, log) else None.

(** ** Shop::visitShop (Shop.cpp, lines 158-220) *)

(** Lines 208-219. *)
Definition visitShop_seated (custID barbID : Z) : M outcome :=
  b1 ← int (barbID + 1);
  mw ← gets max_waiting_cust_;
  wc ← gets waiting_customers_;
  free ← int (mw - wc);
  print custID ("moves to service chair[" +:+ int2string b1
                +:+ "], # waiting seats available = " +:+ int2string free);;
  store_service barbID true;;
  pthread_cond_signal (cond_barber_sleeping_ barbID);;
  ret (Return (Some barbID)).

(** [++cust_drops_]. *)
Definition record_drop : M unit :=
  d ← gets cust_drops_;
  d' ← int (d + 1);
  modify (set_cust_drops_ d').

(** [waiting_customers_++] and [waiting_customers_--]. *)
Definition waiting_add (k : Z) : M unit :=
  w ← gets waiting_customers_;
  w' ← int (w + k);
  modify (set_waiting_customers_ w').

(** Lines 161-193, up to the wait. *)
Definition visitShop_entry (custID : Z) : M outcome :=
  mw ← gets max_waiting_cust_;
  if mw =? 0
  then (barbID ← assignBarber custID;
        if barbID =? -1
        then (print custID "leaves the shop because of no available service chairs.";;
              record_drop;;
              ret (Return (Some barbID)))
        else visitShop_seated custID barbID)
  else (wc ← gets waiting_customers_;
        if mw =? wc
        then (print custID "leaves the shop because of no available waiting chairs.";;
              record_drop;;
              ret (Return (Some (-1))))
        else (barbID ← assignBarber custID;
              if barbID =? -1
              then (waiting_add 1;;
                    wc' ← gets waiting_customers_;
                    free ← int (mw - wc');
                    print custID ("takes a waiting chair. # waiting seats available = "
                                  +:+ int2string free);;
                    pthread_cond_wait cond_customers_waiting_ (VisitShop_woken custID))
              else visitShop_seated custID barbID)).

(** Lines 195-219, after the wait. *)
Definition visitShop_woken (custID : Z) : M outcome :=
  barbID ← assignBarber custID;
  if barbID =? -1
  then (print custID "leaves the shop because of no available service chairs.";;
        record_drop;;
        waiting_add (-1);;
        ret (Return (Some barbID)))
  else (waiting_add (-1);;
        visitShop_seated custID barbID).

(** ** Shop::leaveShop (Shop.cpp, lines 257-278) *)

(** The [while] test of line 266 and what follows it. *)
Definition leaveShop_loop (custID barbID : Z) : M outcome :=
  busy ← load in_service_ barbID;
  if (busy : bool)
  then pthread_cond_wait (cond_customer_served_ barbID) (LeaveShop_loop custID barbID)
  else (store_paid barbID true;;
        pthread_cond_signal (cond_barber_paid_ barbID);;
        b1 ← int (barbID + 1);
        print custID ("says good-bye to barber[" +:+ int2string b1 +:+ "]");;
        ret (Return None)).

Definition leaveShop_entry (custID barberID : Z) : M outcome :=
  b1 ← int (barberID + 1);
  print custID ("wait for barber[" +:+ int2string b1
                +:+ "] to be done with hair-cut");;
  leaveShop_loop custID barberID.

(** ** Shop::helloCustomer (Shop.cpp, lines 293-314) *)

(** The [while] test of line 304 and what follows it. *)
Definition helloCustomer_loop (barbID : Z) : M outcome :=
  c ← load customer_in_chair_ barbID;
  if c =? 0
  then pthread_cond_wait (cond_barber_sleeping_ barbID) (HelloCustomer_loop barbID)
  else (b1 ← int (barbID + 1);
        nb ← int (- b1);
        print nb ("starts a hair-cut service for customer[" +:+ int2string c +:+ "]");;
        ret (Return None)).

(** The test of line 298; [&&] reads the chair only when nobody waits. *)
Definition no_customers (barbID : Z) : M bool :=
  wc ← gets waiting_customers_;
  if wc =? 0
  then (c ← load customer_in_chair_ barbID; ret (c =? 0))
  else ret false.

(** Lines 295-302. *)
Definition helloCustomer_entry (barbID : Z) : M outcome :=
  idle ← no_customers barbID;
  if (idle : bool)
  then (b1 ← int (barbID + 1);
        nb ← int (- b1);
        print nb "sleeps because of no customers.";;
        sb ← gets sleeping_barbs_;
        sb' ← int (sb + 1);
        modify (set_sleeping_barbs_ sb');;
        pthread_cond_wait (cond_barber_sleeping_ barbID) (HelloCustomer_loop barbID))
  else helloCustomer_loop barbID.

(** ** Shop::byeCustomer (Shop.cpp, lines 327-348) *)

(** Lines 329-339, up to the wait. *)
Definition byeCustomer_entry (barbID : Z) : M outcome :=
  store_service barbID false;;
  b1 ← int (barbID + 1);
  nb ← int (- b1);
  c ← load customer_in_chair_ barbID;
  print nb ("says he's done with a hair-cut service for customer["
            +:+ int2string c +:+ "]");;
  store_paid barbID false;;
  pthread_cond_signal (cond_customer_served_ barbID);;
  pthread_cond_wait (cond_barber_paid_ barbID) (ByeCustomer_woken barbID).

(** Lines 342-347, after the wait: the wait is not in a loop, and
    [money_paid_] is not read. *)
Definition byeCustomer_woken (barbID : Z) : M outcome :=
  store_chair barbID 0;;
  b1 ← int (barbID + 1);
  nb ← int (- b1);
  print nb "calls in another customer";;
  sb ← gets sleeping_barbs_;
  sb' ← int (sb + 1);
  modify (set_sleeping_barbs_ sb');;
  pthread_cond_signal cond_customers_waiting_;;
  ret (Return None).

(** ** Shop::get_cust_drops (Shop.cpp, lines 354-357) *)
Definition get_cust_drops : M outcome :=
  d ← gets cust_drops_;
  ret (Return (Some d)).

(** ** The section that starts at a program point *)
Definition section (p : pc) : M outcome :=
  match p with
  | VisitShop custID => visitShop_entry custID
  | VisitShop_woken custID => visitShop_woken custID
  | LeaveShop custID barberID => leaveShop_entry custID barberID
  | LeaveShop_loop custID barbID => leaveShop_loop custID barbID
  | HelloCustomer barbID => helloCustomer_entry barbID
  | HelloCustomer_loop barbID => helloCustomer_loop barbID
  | ByeCustomer barbID => byeCustomer_entry barbID
  | ByeCustomer_woken barbID => byeCustomer_woken barbID
  | Get_cust_drops => get_cust_drops
  end.

Definition run (p : pc) (s : Shop) : option (outcome * Shop * list event) :=
  section p s [].

(** ** The constructors and Shop::init (Shop.cpp, lines 29-104) *)

(** [new T[n]] followed by the loop of [init], which stores [v] in every
    element. *)
Definition new_array {A} (n : Z) (v : A) : list A := replicate (Z.to_nat n) v.

Definition Shop_new (num_barbers num_chairs : Z) : Shop :=
  let max_waiting := if num_chairs >=? 0 then num_chairs else kDefaultNumChairs in
  let max_working := if num_barbers >? 0 then num_barbers else kDefaultBarbers in
  mkShop max_waiting max_working 0 0 0
         (new_array max_working 0)
         (new_array max_working false)
         (new_array max_working false).

Definition Shop_default : Shop :=
  mkShop kDefaultNumChairs kDefaultBarbers 0 0 0
         (new_array kDefaultBarbers 0)
         (new_array kDefaultBarbers false)
         (new_array kDefaultBarbers false).

(** * Threads (driver.cpp)

    A thread is ready to enter the monitor at a program point, blocked in a
    wait, or finished.  [Customer] and [Barber] are the two thread functions
    of the driver; [Caller] is a client that calls one method once. *)

Inductive tstate :=
| Ready (p : pc)
| Blocked (c : cond) (p : pc)
| Done (p : pc) (r : option Z).

Inductive actor := Customer | Barber | Caller.

Record thread := mkThread { role : actor; state : tstate }.

(** What a thread does when the method it called at [p] returns [r]:
    [customer] (driver.cpp, lines 124-128) calls leaveShop when visitShop
    did not return -1; [barber] (lines 109-113) alternates helloCustomer and
    byeCustomer for ever. *)
Definition after_return (a : actor) (p : pc) (r : option Z) : tstate :=
  match a, p, r with
  | Customer, (VisitShop id | VisitShop_woken id), Some barbID =>
      if barbID =? -1 then Done p r else Ready (LeaveShop id barbID)
  | Barber, (HelloCustomer barbID | HelloCustomer_loop barbID), _ =>
      Ready (ByeCustomer barbID)
  | Barber, (ByeCustomer barbID | ByeCustomer_woken barbID), _ =>
      Ready (HelloCustomer barbID)
  | _, _, _ => Done p r
  end.

Definition next (a : actor) (p : pc) (o : outcome) : tstate :=
  match o with
  | Block c k => Blocked c k
  | Return r => after_return a p r
  end.

Definition entry (p : pc) : bool :=
  match p with
  | VisitShop _ | LeaveShop _ _ | HelloCustomer _ | ByeCustomer _
  | Get_cust_drops => true
  | _ => false
  end.

(** A thread as it is created. *)
Definition initial (t : thread) : bool :=
  match role t, state t with
  | Customer, Ready (VisitShop _) => true
  | Barber, Ready (HelloCustomer _) => true
  | Caller, Ready p => entry p
  | _, _ => false
  end.

Record machine := mkMachine {
  shop : Shop;
  threads : list thread;
  trace : list event
}.

(** One step of the program: a ready thread takes the mutex and runs its
    section, a blocked thread returns from its wait (signalled or not), or a
    thread is created.  [P] says which threads may be created. *)
Inductive step (P : machine → thread → Prop) : machine → machine → Prop :=
| step_run m i a p o s' log :
    threads m !! i = Some (mkThread a (Ready p)) →
    run p (shop m) = Some (o, s', log) →
    step P m (mkMachine s' (<[i := mkThread a (next a p o)]> (threads m))
                        (trace m ++ log))
| step_wake m i a c k :
    threads m !! i = Some (mkThread a (Blocked c k)) →
    step P m (mkMachine (shop m) (<[i := mkThread a (Ready k)]> (threads m))
                        (trace m))
| step_spawn m t :
    initial t = true → P m t →
    step P m (mkMachine (shop m) (threads m ++ [t]) (trace m)).

Definition steps (P : machine → thread → Prop) : machine → machine → Prop :=
  rtc (step P).

(** The same steps as a function, for running a schedule. *)
Inductive action := Run (i : nat) | Wake (i : nat) | Spawn (t : thread).

Definition exec (a : action) (m : machine) : option machine :=
  match a with
  | Run i =>
      match threads m !! i with
      | Some (mkThread a (Ready p)) =>
          match run p (shop m) with
          | Some (o, s', log) =>
              Some (mkMachine s' (<[i := mkThread a (next a p o)]> (threads m))
                              (trace m ++ log))
          | None => None
          end
      | _ => None
      end
  | Wake i =>
      match threads m !! i with
      | Some (mkThread a (Blocked c k)) =>
          Some (mkMachine (shop m) (<[i := mkThread a (Ready k)]> (threads m))
                          (trace m))
      | _ => None
      end
  | Spawn t =>
      if initial t
      then Some (mkMachine (shop m) (threads m ++ [t]) (trace m))
      else None
  end.

Fixpoint schedule (acts : list action) (m : machine) : option machine :=
  match acts with
  | [] => Some m
  | a :: acts' =>
      match exec a m with
      | Some m' => schedule acts' m'
      | None => None
      end
  end.

Definition no_spawn (a : action) : bool :=
  match a with Spawn _ => false | _ => true end.

(** The spawn policies: any thread, and none. *)
Definition anyone : machine → thread → Prop := λ _ _, True.
Definition nobody : machine → thread → Prop := λ _ _, False.

(** ** The driver's [main] (driver.cpp, lines 43-99)

    [main] refuses arguments below 1 (below 0 for the chairs), builds the
    Shop and creates the barbers 0, ..., [num_barbers - 1] and the customers
    1, ..., [num_customers].  Here all the threads exist from the start; a
    thread that [main] creates late is a thread that is scheduled late. *)
Definition barber_thread (i : Z) : thread :=
  mkThread Barber (Ready (HelloCustomer i)).

Definition customer_thread (i : Z) : thread :=
  mkThread Customer (Ready (VisitShop (i + 1))).

Definition main (num_barbers num_chairs num_customers service_time : Z)
  : option machine :=
  if (num_barbers <? 1) || (num_customers <? 1) || (service_time <? 1)
  then None
  else if num_chairs <? 0 then None
  else Some (mkMachine (Shop_new num_barbers num_chairs)
               ((barber_thread <$> seqZ 0 num_barbers) ++
                (customer_thread <$> seqZ 0 num_customers))
               []).

(** A Shop just constructed, with no thread yet. *)
Definition fresh (num_barbers num_chairs : Z) : machine :=
  mkMachine (Shop_new num_barbers num_chairs) [] [].

(** * The vocabulary of the statements *)

(** ** Well-formed shops

    What the constructors establish and every section keeps: the capacities
    are [int]s of the right sign and the three arrays have
    [max_working_barb_] elements. *)
Record wf (s : Shop) : Prop := mk_wf {
  wf_waiting : 0 <= max_waiting_cust_ s <= INT_MAX;
  wf_working : 0 < max_working_barb_ s <= INT_MAX;
  wf_chair : Z.of_nat (length (customer_in_chair_ s)) = max_working_barb_ s;
  wf_service : Z.of_nat (length (in_service_ s)) = max_working_barb_ s;
  wf_paid : Z.of_nat (length (money_paid_ s)) = max_working_barb_ s
}.

(** A chair is empty when it holds 0 (Shop.cpp, lines 96 and 237). *)
Definition all_occupied (s : Shop) : Prop :=
  Forall (λ c, c ≠ 0) (customer_in_chair_ s).

Definition occupant (s : Shop) (barbID : Z) : option Z :=
  if 0 <=? barbID then customer_in_chair_ s !! Z.to_nat barbID else None.

Definition serving (s : Shop) (barbID : Z) : option bool :=
  if 0 <=? barbID then in_service_ s !! Z.to_nat barbID else None.

Definition paid (s : Shop) (barbID : Z) : option bool :=
  if 0 <=? barbID then money_paid_ s !! Z.to_nat barbID else None.

(** The line that [print] writes. *)
Definition print_line (person : Z) (message : string) : string :=
  if person <=? 0
  then "barber  [" +:+ int2string (- person) +:+ "]: " +:+ message
  else "customer[" +:+ int2string person +:+ "]: " +:+ message.

(** ** The updates of the Shop *)

(** The Shop after [assignBarber] has put [custID] in chair [barbID]
    (lines 238-239). *)
Definition take_chair (custID barbID : Z) (s : Shop) : Shop :=
  set_sleeping_barbs_ (sleeping_barbs_ s - 1)
    (set_customer_in_chair_
       (<[Z.to_nat barbID := custID]> (customer_in_chair_ s)) s).

(** Chairs [lo], ..., [hi - 1] exist and hold a customer. *)
Definition occupied_between (s : Shop) (lo hi : Z) : Prop :=
  ∀ j, lo <= j < hi → ∃ c, occupant s j = Some c ∧ c ≠ 0.

(** ** What each section does

    [effect p s o s'] lists the paths through the section that starts at
    [p]: the condition on the Shop [s] under which the path is taken, how it
    ends, and the Shop [s'] it leaves. *)

Definition first_empty (s : Shop) (barbID : Z) : Prop :=
  0 <= barbID < max_working_barb_ s ∧ occupant s barbID = Some 0 ∧
  occupied_between s 0 barbID.

(** [++cust_drops_]. *)
Definition drop_customer (s : Shop) : Shop :=
  set_cust_drops_ (cust_drops_ s + 1) s.

(** [waiting_customers_++] ([k = 1]) and [waiting_customers_--] ([k = -1]). *)
Definition move_waiting (k : Z) (s : Shop) : Shop :=
  set_waiting_customers_ (waiting_customers_ s + k) s.

(** [in_service_[barbID] = v]. *)
Definition mark_service (barbID : Z) (v : bool) (s : Shop) : Shop :=
  set_in_service_ (<[Z.to_nat barbID := v]> (in_service_ s)) s.

(** [money_paid_[barbID] = v]. *)
Definition mark_paid (barbID : Z) (v : bool) (s : Shop) : Shop :=
  set_money_paid_ (<[Z.to_nat barbID := v]> (money_paid_ s)) s.

(** [sleeping_barbs_++]. *)
Definition barber_idle (s : Shop) : Shop :=
  set_sleeping_barbs_ (sleeping_barbs_ s + 1) s.

(** [customer_in_chair_[barbID] = 0; sleeping_barbs_++]. *)
Definition clear_chair (barbID : Z) (s : Shop) : Shop :=
  barber_idle
    (set_customer_in_chair_ (<[Z.to_nat barbID := 0]> (customer_in_chair_ s)) s).

Definition leave_pc (p : pc) (custID barbID : Z) : Prop :=
  p = LeaveShop custID barbID ∨ p = LeaveShop_loop custID barbID.

Definition hello_pc (p : pc) (barbID : Z) : Prop :=
  p = HelloCustomer barbID ∨ p = HelloCustomer_loop barbID.

Inductive effect : pc → Shop → outcome → Shop → Prop :=
| visit_no_chair custID s :
    max_waiting_cust_ s = 0 → all_occupied s →
    effect (VisitShop custID) s (Return (Some (-1))) (drop_customer s)
| visit_no_seat custID s :
    max_waiting_cust_ s ≠ 0 → max_waiting_cust_ s = waiting_customers_ s →
    effect (VisitShop custID) s (Return (Some (-1))) (drop_customer s)
| visit_seated custID s barbID :
    max_waiting_cust_ s = 0 ∨ max_waiting_cust_ s ≠ waiting_customers_ s →
    first_empty s barbID →
    effect (VisitShop custID) s (Return (Some barbID))
           (mark_service barbID true (take_chair custID barbID s))
| visit_waits custID s :
    max_waiting_cust_ s ≠ 0 → max_waiting_cust_ s ≠ waiting_customers_ s →
    all_occupied s →
    effect (VisitShop custID) s
           (Block cond_customers_waiting_ (VisitShop_woken custID))
           (move_waiting 1 s)
| woken_no_chair custID s :
    all_occupied s →
    effect (VisitShop_woken custID) s (Return (Some (-1)))
           (move_waiting (-1) (drop_customer s))
| woken_seated custID s barbID :
    first_empty s barbID →
    effect (VisitShop_woken custID) s (Return (Some barbID))
           (mark_service barbID true
              (move_waiting (-1) (take_chair custID barbID s)))
| leave_waits p custID barbID s :
    leave_pc p custID barbID → serving s barbID = Some true →
    effect p s (Block (cond_customer_served_ barbID)
                      (LeaveShop_loop custID barbID)) s
| leave_pays p custID barbID s :
    leave_pc p custID barbID → serving s barbID = Some false →
    0 <= barbID < Z.of_nat (length (money_paid_ s)) →
    effect p s (Return None) (mark_paid barbID true s)
| hello_sleeps barbID s :
    waiting_customers_ s = 0 → occupant s barbID = Some 0 →
    effect (HelloCustomer barbID) s
           (Block (cond_barber_sleeping_ barbID) (HelloCustomer_loop barbID))
           (barber_idle s)
| hello_waits barbID s :
    waiting_customers_ s ≠ 0 → occupant s barbID = Some 0 →
    effect (HelloCustomer barbID) s
           (Block (cond_barber_sleeping_ barbID) (HelloCustomer_loop barbID)) s
| hello_waits_again barbID s :
    occupant s barbID = Some 0 →
    effect (HelloCustomer_loop barbID) s
           (Block (cond_barber_sleeping_ barbID) (HelloCustomer_loop barbID)) s
| hello_starts p barbID custID s :
    hello_pc p barbID → occupant s barbID = Some custID → custID ≠ 0 →
    effect p s (Return None) s
| bye_done barbID s :
    0 <= barbID < Z.of_nat (length (in_service_ s)) →
    0 <= barbID < Z.of_nat (length (money_paid_ s)) →
    effect (ByeCustomer barbID) s
           (Block (cond_barber_paid_ barbID) (ByeCustomer_woken barbID))
           (mark_paid barbID false (mark_service barbID false s))
| bye_clears barbID s :
    0 <= barbID < Z.of_nat (length (customer_in_chair_ s)) →
    effect (ByeCustomer_woken barbID) s (Return None) (clear_chair barbID s)
| drops_read s :
    effect Get_cust_drops s (Return (Some (cust_drops_ s))) s.

(** ** No undefined behaviour

    [room] says that the counters are far enough from the ends of [int], and
    [pc_ok] that the arguments of the call are an identifier that [print] can
    negate and a barber of the shop. *)
Record room (s : Shop) : Prop := mk_room {
  room_sleeping : INT_MIN < sleeping_barbs_ s < INT_MAX;
  room_drops : INT_MIN <= cust_drops_ s < INT_MAX;
  room_waiting : 0 <= waiting_customers_ s <= max_waiting_cust_ s
}.

Definition pc_ok (p : pc) (s : Shop) : Prop :=
  match p with
  | VisitShop custID => INT_MIN < custID
  | VisitShop_woken custID => INT_MIN < custID ∧ 1 <= waiting_customers_ s
  | LeaveShop custID barbID | LeaveShop_loop custID barbID =>
      INT_MIN < custID ∧ 0 <= barbID < max_working_barb_ s
  | HelloCustomer barbID | HelloCustomer_loop barbID
  | ByeCustomer barbID | ByeCustomer_woken barbID =>
      0 <= barbID < max_working_barb_ s
  | Get_cust_drops => True
  end.

(** ** Counting threads *)

Definition b2z (b : bool) : Z := if b then 1 else 0.

Fixpoint tally (f : thread → bool) (ts : list thread) : Z :=
  match ts with
  | [] => 0
  | t :: ts' => b2z (f t) + tally f ts'
  end.

Definition is_visit (p : pc) : bool :=
  match p with VisitShop _ | VisitShop_woken _ => true | _ => false end.

Definition is_leave (p : pc) : bool :=
  match p with LeaveShop _ _ | LeaveShop_loop _ _ => true | _ => false end.

(** The thread's call of visitShop has returned -1. *)
Definition dropped (t : thread) : bool :=
  match state t with
  | Done p (Some r) => is_visit p && (r =? -1)
  | _ => false
  end.

(** The thread is inside visitShop and has taken a waiting chair. *)
Definition in_waiting (t : thread) : bool :=
  match state t with
  | Ready (VisitShop_woken _) | Blocked _ (VisitShop_woken _) => true
  | _ => false
  end.

(** [waiting_customers_] counts the threads that sit on a waiting chair, and
    never exceeds [max_waiting_cust_]. *)
Definition waiting_ok (s : Shop) : Prop :=
  0 <= waiting_customers_ s <= max_waiting_cust_ s.

Definition waiting_inv (m : machine) : Prop :=
  waiting_customers_ (shop m) = tally in_waiting (threads m) ∧
  waiting_customers_ (shop m) <= max_waiting_cust_ (shop m).

(** ** The driver's run *)

Definition is_customer (t : thread) : bool :=
  match role t with Customer => true | _ => false end.

(** A customer thread that has gone through leaveShop. *)
Definition served (t : thread) : bool :=
  match role t, state t with
  | Customer, Done p _ => is_leave p
  | _, _ => false
  end.

(** What [pthread_join] waits for (driver.cpp, lines 89-91). *)
Definition joined (t : thread) : bool :=
  match role t, state t with
  | Customer, Done _ _ => true
  | Customer, _ => false
  | _, _ => true
  end.

Definition is_barber_pc (p : pc) : bool :=
  match p with
  | HelloCustomer _ | HelloCustomer_loop _ | ByeCustomer _
  | ByeCustomer_woken _ => true
  | _ => false
  end.

(** The states a thread of the driver can be in. *)
Definition shape (t : thread) : bool :=
  match role t, state t with
  | Customer, (Ready p | Blocked _ p) => is_visit p || is_leave p
  | Customer, Done p r => dropped t || is_leave p
  | Barber, (Ready p | Blocked _ p) => is_barber_pc p
  | Barber, Done _ _ => false
  | Caller, _ => false
  end.

Definition driver_inv (m : machine) : Prop :=
  Forall (λ t, shape t = true) (threads m).

(** ** The slots under the documented call order *)

(** Chair [barbID] holds a customer. *)
Definition taken (s : Shop) (barbID : Z) : Prop :=
  ∃ c, occupant s barbID = Some c ∧ c ≠ 0.

(** [in_service_[i]] is true only if chair [i] holds a customer. *)
Definition service_ok (s : Shop) : Prop :=
  ∀ j, serving s j = Some true → taken s j.

Definition slot_of (p : pc) : option Z :=
  match p with
  | HelloCustomer b | HelloCustomer_loop b | ByeCustomer b
  | ByeCustomer_woken b => Some b
  | _ => None
  end.

(** The barber that a [Barber] thread is. *)
Definition barber_of (t : thread) : option Z :=
  match role t, state t with
  | Barber, (Ready p | Blocked _ p) => slot_of p
  | _, _ => None
  end.

(** The documented call order, as a rule on the threads that are created:
    a customer's identifier is not 0 (they begin at 1: Shop.cpp, line 138,
    and driver.cpp, line 84); byeCustomer is only called by a barber thread,
    after its helloCustomer; there is one thread for each barber. *)
Definition protocol (m : machine) (t : thread) : Prop :=
  match role t, state t with
  | (Customer | Caller), Ready (VisitShop id) => id ≠ 0
  | Caller, Ready (ByeCustomer _) => False
  | Barber, Ready (HelloCustomer b) =>
      ∀ t', t' ∈ threads m → barber_of t' ≠ Some b
  | _, _ => True
  end.

(** What a thread at [p] can rely on. *)
Definition pinv (a : actor) (s : Shop) (p : pc) : Prop :=
  match p with
  | VisitShop c | VisitShop_woken c => c ≠ 0
  | ByeCustomer b => a = Barber ∧ taken s b
  | ByeCustomer_woken b => a = Barber ∧ serving s b = Some false ∧ taken s b
  | _ => True
  end.

Definition tinv (s : Shop) (t : thread) : Prop :=
  match state t with
  | Ready p | Blocked _ p => pinv (role t) s p
  | Done _ _ => True
  end.

Definition one_thread_per_barber (ts : list thread) : Prop :=
  ∀ i j ti tj b,
    ts !! i = Some ti → ts !! j = Some tj →
    barber_of ti = Some b → barber_of tj = Some b → i = j.

Record protocol_inv (m : machine) : Prop := mk_protocol_inv {
  pi_wf : wf (shop m);
  pi_service : service_ok (shop m);
  pi_threads : ∀ j t, threads m !! j = Some t → tinv (shop m) t;
  pi_unique : one_thread_per_barber (threads m)
}.

(** A run of the driver with one barber, no waiting chair and two customers:
    customer 1 is served and customer 2 is turned away. *)
Definition C9_schedule : list action :=
  [Run 1; Run 2; Run 1; Run 0; Run 0; Wake 1; Run 1; Wake 0; Run 0].

(** ** The arguments of the calls in flight *)

(** The barber with which a call at [p] indexes the arrays. *)
Definition slot_arg (p : pc) : option Z :=
  match p with
  | LeaveShop _ b | LeaveShop_loop _ b
  | HelloCustomer b | HelloCustomer_loop b
  | ByeCustomer b | ByeCustomer_woken b => Some b
  | _ => None
  end.

(** The program point of a thread that has not finished. *)
Definition pc_of (t : thread) : option pc :=
  match state t with
  | Ready p | Blocked _ p => Some p
  | Done _ _ => None
  end.

(** Every call in flight names a barber of the shop. *)
Definition in_range (s : Shop) (t : thread) : Prop :=
  ∀ p b, pc_of t = Some p → slot_arg p = Some b →
         0 <= b < max_working_barb_ s.

Definition finished (t : thread) : bool :=
  match state t with Done _ _ => true | _ => false end.

(** * Lemmas on the monad and its primitives *)

Lemma is_int_spec z : is_int z = true ↔ INT_MIN <= z <= INT_MAX.
Proof. unfold is_int. rewrite andb_true_iff, !Z.leb_le. tauto. Qed.

Lemma in_bounds_spec {A} (arr : list A) i :
  in_bounds arr i = true ↔ 0 <= i < Z.of_nat (length arr).
Proof. unfold in_bounds. rewrite andb_true_iff, Z.leb_le, Z.ltb_lt. tauto. Qed.

Lemma bind_Some {A B} (m : M A) (f : A → M B) s l r :
  (m ≫= f) s l = Some r ↔
  ∃ a s1 l1, m s l = Some (a, s1, l1) ∧ f a s1 l1 = Some r.
Proof.
  unfold mbind, M_bind, bind. split.
  - destruct (m s l) as [[[a s1] l1]|]; [|discriminate]. eauto.
  - intros (a & s1 & l1 & -> & H). exact H.
Qed.

Lemma ret_Some {A} (a : A) s l r : ret a s l = Some r ↔ r = (a, s, l).
Proof. unfold ret. split; [intros [= <-]|intros ->]; reflexivity. Qed.

Lemma gets_Some {A} (f : Shop → A) s l r : gets f s l = Some r ↔ r = (f s, s, l).
Proof. unfold gets. split; [intros [= <-]|intros ->]; reflexivity. Qed.

Lemma modify_Some f s l r : modify f s l = Some r ↔ r = (tt, f s, l).
Proof. unfold modify. split; [intros [= <-]|intros ->]; reflexivity. Qed.

Lemma emit_Some e s l r : emit e s l = Some r ↔ r = (tt, s, l ++ [e]).
Proof. unfold emit. split; [intros [= <-]|intros ->]; reflexivity. Qed.

Lemma int_Some z s l r :
  int z s l = Some r ↔ INT_MIN <= z <= INT_MAX ∧ r = (z, s, l).
Proof.
  unfold int. rewrite <- is_int_spec. destruct (is_int z).
  - rewrite ret_Some. tauto.
  - unfold undefined. split; [discriminate|intros [? _]; discriminate].
Qed.

Lemma load_Some {A} (arr : Shop → list A) i s l r :
  load arr i s l = Some r ↔
  ∃ v, 0 <= i ∧ arr s !! Z.to_nat i = Some v ∧ r = (v, s, l).
Proof.
  unfold load. destruct (in_bounds (arr s) i) eqn:Hb.
  - apply in_bounds_spec in Hb. destruct (arr s !! Z.to_nat i) as [v|] eqn:Hv.
    + split.
      * intros [= <-]. exists v. split; [lia|split; reflexivity].
      * intros (v' & _ & [= <-] & ->). reflexivity.
    + split; [discriminate|]. intros (v' & _ & [=] & _).
  - split; [discriminate|]. intros (v & Hi & Hv & _).
    apply lookup_lt_Some in Hv.
    assert (in_bounds (arr s) i = true) by (apply in_bounds_spec; lia).
    congruence.
Qed.

Lemma store_Some {A} (arr : Shop → list A) upd ev i (v : A) s l r :
  store arr upd ev i v s l = Some r ↔
  0 <= i < Z.of_nat (length (arr s)) ∧
  r = (tt, upd (<[Z.to_nat i := v]> (arr s)) s, l ++ [ev i v]).
Proof.
  unfold store. rewrite <- in_bounds_spec. destruct (in_bounds (arr s) i).
  - split; [intros [= <-]; done|intros [_ ->]; done].
  - split; [discriminate|intros [? _]; discriminate].
Qed.

Lemma signal_Some c s l r :
  pthread_cond_signal c s l = Some r ↔
  cond_ok c s = true ∧ r = (tt, s, l ++ [Signal c]).
Proof.
  unfold pthread_cond_signal. destruct (cond_ok c s).
  - split; [intros [= <-]; done|intros [_ ->]; done].
  - split; [discriminate|intros [? _]; discriminate].
Qed.

Lemma wait_Some c k s l r :
  pthread_cond_wait c k s l = Some r ↔
  cond_ok c s = true ∧ r = (Block c k, s, l).
Proof.
  unfold pthread_cond_wait. destruct (cond_ok c s).
  - split; [intros [= <-]; done|intros [_ ->]; done].
  - split; [discriminate|intros [? _]; discriminate].
Qed.

Lemma print_Some person message s l r :
  print person message s l = Some r ↔
  INT_MIN < person ∧
  r = (tt, s, l ++ [Out (print_line person message)]).
Proof.
  unfold print, print_line. destruct (person <=? 0) eqn:Hp.
  - apply Z.leb_le in Hp. rewrite bind_Some. split.
    + intros (a & s1 & l1 & Hi & He). apply int_Some in Hi as [Hi [= -> -> ->]].
      apply emit_Some in He. unfold INT_MIN, INT_MAX in *. split; [lia|done].
    + intros [Hi ->]. exists (- person), s, l. split; [|done].
      apply int_Some. unfold INT_MIN, INT_MAX in *. split; [lia|done].
  - apply Z.leb_gt in Hp. rewrite emit_Some. unfold INT_MIN.
    split; [intros ->; split; [lia|done]|intros [_ ->]; done].
Qed.

(** * assignBarber finds the first empty chair *)

Lemma occupant_Some s j c :
  occupant s j = Some c ↔ 0 <= j ∧ customer_in_chair_ s !! Z.to_nat j = Some c.
Proof.
  unfold occupant. destruct (0 <=? j) eqn:Hj.
  - apply Z.leb_le in Hj. tauto.
  - apply Z.leb_gt in Hj. split; [discriminate|lia].
Qed.

Lemma assignBarber_from_Some n : ∀ b c s l r s' l',
  0 <= b →
  assignBarber_from n b c s l = Some (r, s', l') →
  (r = -1 ∧ s' = s ∧ l' = l ∧ occupied_between s b (b + Z.of_nat n)) ∨
  (b <= r < b + Z.of_nat n ∧ occupant s r = Some 0 ∧ occupied_between s b r ∧
   INT_MIN <= sleeping_barbs_ s - 1 <= INT_MAX ∧
   s' = take_chair c r s ∧ l' = l ++ [StoreChair r c]).
Proof.
  induction n as [|n IH]; intros b c s l r s' l' Hb H.
  - apply ret_Some in H as [= -> -> ->]. left.
    repeat split; try reflexivity. intros j ?. lia.
  - cbn [assignBarber_from] in H.
    apply bind_Some in H as (v & s1 & l1 & Hl & H).
    apply load_Some in Hl as (x & _ & Hv & [= -> -> ->]).
    destruct (x =? 0) eqn:Hx.
    + apply Z.eqb_eq in Hx as ->. right.
      apply bind_Some in H as ([] & s1 & l1 & Hst & H).
      apply store_Some in Hst as [Hin [= -> ->]].
      apply bind_Some in H as (sb & s2 & l2 & Hg & H).
      apply gets_Some in Hg as [= -> -> ->].
      apply bind_Some in H as (sb' & s2 & l2 & Hi & H).
      apply int_Some in Hi as [Hi [= -> -> ->]].
      apply bind_Some in H as ([] & s3 & l3 & Hm & H).
      apply modify_Some in Hm as [= -> ->].
      apply ret_Some in H as [= -> -> ->].
      split; [lia|]. split; [apply occupant_Some; done|].
      split; [intros j ?; lia|]. split; [exact Hi|]. done.
    + apply Z.eqb_neq in Hx.
      apply IH in H; [|lia].
      assert (Hhere : ∀ j, b <= j < b + 1 → ∃ c0, occupant s j = Some c0 ∧ c0 ≠ 0).
      { intros j Hj. assert (j = b) as -> by lia. exists x.
        split; [apply occupant_Some; done|done]. }
      destruct H as [(-> & -> & -> & Hocc)|(Hr & Hz & Hocc & Hi & -> & ->)].
      * left. repeat split; try reflexivity. intros j Hj.
        destruct (decide (j = b)) as [->|]; [apply Hhere; lia|apply Hocc; lia].
      * right. split; [lia|]. split; [done|]. split; [|done].
        intros j Hj.
        destruct (decide (j = b)) as [->|]; [apply Hhere; lia|apply Hocc; lia].
Qed.

Lemma assignBarber_from_defined n : ∀ b c s l,
  0 <= b →
  b + Z.of_nat n <= Z.of_nat (length (customer_in_chair_ s)) →
  INT_MIN < sleeping_barbs_ s <= INT_MAX →
  is_Some (assignBarber_from n b c s l).
Proof.
  induction n as [|n IH]; intros b c s l Hb Hlen Hsb; [by eexists|].
  cbn [assignBarber_from].
  destruct (lookup_lt_is_Some_2 (customer_in_chair_ s) (Z.to_nat b)) as [x Hx];
    [lia|].
  unfold mbind at 1, M_bind, bind.
  assert (load customer_in_chair_ b s l = Some (x, s, l)) as ->.
  { apply load_Some. exists x. done. }
  destruct (x =? 0).
  - unfold store_chair, mbind, M_bind, bind, store.
    assert (in_bounds (customer_in_chair_ s) b = true) as ->
      by (apply in_bounds_spec; lia).
    cbn. unfold int.
    assert (is_int (sleeping_barbs_ s - 1) = true) as ->
      by (apply is_int_spec; unfold INT_MIN, INT_MAX in *; lia).
    by eexists.
  - apply IH; lia.
Qed.

Lemma occupied_between_all s :
  wf s → occupied_between s 0 (max_working_barb_ s) ↔ all_occupied s.
Proof.
  intros Hwf. unfold occupied_between, all_occupied.
  rewrite Forall_lookup. split.
  - intros H i c Hc. pose proof (lookup_lt_Some _ _ _ Hc) as Hi.
    destruct (H (Z.of_nat i)) as (c' & Hc' & Hnz); [destruct Hwf; lia|].
    apply occupant_Some in Hc' as [_ Hc']. rewrite Nat2Z.id in Hc'. congruence.
  - intros H j Hj.
    destruct (lookup_lt_is_Some_2 (customer_in_chair_ s) (Z.to_nat j)) as [c Hc];
      [destruct Hwf; lia|].
    exists c. split; [apply occupant_Some; split; [lia|done]|]. by eapply H.
Qed.

Lemma assignBarber_Some c s l r s' l' :
  wf s →
  assignBarber c s l = Some (r, s', l') →
  (r = -1 ∧ s' = s ∧ l' = l ∧ all_occupied s) ∨
  (0 <= r < max_working_barb_ s ∧ occupant s r = Some 0 ∧
   occupied_between s 0 r ∧
   INT_MIN <= sleeping_barbs_ s - 1 <= INT_MAX ∧
   s' = take_chair c r s ∧ l' = l ++ [StoreChair r c]).
Proof.
  intros Hwf H. unfold assignBarber in H.
  apply bind_Some in H as (n & s1 & l1 & Hg & H).
  apply gets_Some in Hg as [= -> -> ->].
  apply assignBarber_from_Some in H; [|lia].
  assert (0 + Z.of_nat (Z.to_nat (max_working_barb_ s)) = max_working_barb_ s)
    as Hn by (destruct Hwf; lia).
  rewrite Hn in H.
  destruct H as [(-> & -> & -> & Hocc)|H]; [left|right; exact H].
  repeat split; try reflexivity. by apply occupied_between_all.
Qed.

Lemma assignBarber_defined c s l :
  wf s → INT_MIN < sleeping_barbs_ s <= INT_MAX →
  is_Some (assignBarber c s l).
Proof.
  intros Hwf Hsb. unfold assignBarber, mbind, M_bind, bind, gets.
  apply assignBarber_from_defined; [lia| |done]. destruct Hwf; lia.
Qed.

Lemma take_chair_wf c r s : wf s → wf (take_chair c r s).
Proof.
  intros [? ? ? ? ?]. split; cbn; try done. by rewrite length_insert.
Qed.

(** * The paths of each section *)

Ltac minv_prim H :=
  first
    [ apply ret_Some in H
    | apply gets_Some in H
    | apply modify_Some in H
    | apply emit_Some in H
    | apply int_Some in H; destruct H as [? H]
    | apply load_Some in H; destruct H as (? & ? & ? & H)
    | apply store_Some in H; destruct H as [? H]
    | apply signal_Some in H; destruct H as [? H]
    | apply wait_Some in H; destruct H as [? H]
    | apply print_Some in H; destruct H as [? H] ].

Ltac minv :=
  repeat match goal with
         | H : (_ ≫= _) _ _ = Some _ |- _ =>
             apply bind_Some in H; destruct H as (? & ? & ? & ? & H)
         | H : (if ?b then _ else _) _ _ = Some _ |- _ => destruct b eqn:?
         | H : _ _ _ = Some _ |- _ => minv_prim H; simplify_eq
         end.

Ltac zfacts :=
  repeat match goal with
         | H : true = (_ =? _) |- _ => symmetry in H
         | H : false = (_ =? _) |- _ => symmetry in H
         | H : (_ =? _) = true |- _ => apply Z.eqb_eq in H
         | H : (_ =? _) = false |- _ => apply Z.eqb_neq in H
         end.

Lemma serving_Some s j v :
  serving s j = Some v ↔ 0 <= j ∧ in_service_ s !! Z.to_nat j = Some v.
Proof.
  unfold serving. destruct (0 <=? j) eqn:Hj.
  - apply Z.leb_le in Hj. tauto.
  - apply Z.leb_gt in Hj. split; [discriminate|lia].
Qed.

Lemma visitShop_seated_Some custID barbID s l o s' l' :
  visitShop_seated custID barbID s l = Some (o, s', l') →
  o = Return (Some barbID) ∧ s' = mark_service barbID true s.
Proof. unfold visitShop_seated. intros H. minv. done. Qed.

Lemma leaveShop_loop_effect p custID barbID s l o s' l' :
  leave_pc p custID barbID →
  leaveShop_loop custID barbID s l = Some (o, s', l') →
  effect p s o s'.
Proof.
  unfold leaveShop_loop, store_paid. intros Hp H. minv.
  - apply (leave_waits _ custID); [done|]. by apply serving_Some.
  - apply (leave_pays _ custID); [done| |done]. by apply serving_Some.
Qed.

Lemma helloCustomer_loop_Some barbID s l o s' l' :
  helloCustomer_loop barbID s l = Some (o, s', l') →
  s' = s ∧
  ((occupant s barbID = Some 0 ∧
    o = Block (cond_barber_sleeping_ barbID) (HelloCustomer_loop barbID)) ∨
   (∃ custID, occupant s barbID = Some custID ∧ custID ≠ 0 ∧ o = Return None)).
Proof.
  unfold helloCustomer_loop. intros H. minv.
  - split; [done|]. left. split; [|done]. apply occupant_Some.
    zfacts. by subst.
  - split; [done|]. right. zfacts.
    eexists. split; [by apply occupant_Some|done].
Qed.

(** Every path through the code is one of the paths of [effect]. *)
Lemma run_effect p s o s' log :
  wf s → run p s = Some (o, s', log) → effect p s o s'.
Proof.
  intros Hwf H. unfold run in H. destruct p as [c|c|c b|c b|b|b|b|b|]; cbn [section] in H.
  - (* visitShop, from its entry *)
    unfold visitShop_entry, record_drop, waiting_add in H.
    apply bind_Some in H as (mw & s1 & l1 & Hg & H).
    apply gets_Some in Hg as [= -> -> ->].
    destruct (max_waiting_cust_ s =? 0) eqn:Hmw.
    + apply Z.eqb_eq in Hmw.
      apply bind_Some in H as (r & s1 & l1 & Ha & H).
      apply (assignBarber_Some _ _ _ _ _ _ Hwf) in Ha
        as [(-> & -> & -> & Hocc)|(Hr & Hz & Hocc & _ & -> & ->)].
      * cbn in H. minv. by apply visit_no_chair.
      * destruct (r =? -1) eqn:Hr1; [apply Z.eqb_eq in Hr1; lia|].
        apply visitShop_seated_Some in H as [-> ->].
        apply visit_seated; [by left|done].
    + apply Z.eqb_neq in Hmw.
      apply bind_Some in H as (wc & s1 & l1 & Hg & H).
      apply gets_Some in Hg as [= -> -> ->].
      destruct (max_waiting_cust_ s =? waiting_customers_ s) eqn:Hfull.
      * apply Z.eqb_eq in Hfull. minv. by apply visit_no_seat.
      * apply Z.eqb_neq in Hfull.
        apply bind_Some in H as (r & s1 & l1 & Ha & H).
        apply (assignBarber_Some _ _ _ _ _ _ Hwf) in Ha
        as [(-> & -> & -> & Hocc)|(Hr & Hz & Hocc & _ & -> & ->)].
        -- cbn in H. minv. by apply visit_waits.
        -- destruct (r =? -1) eqn:Hr1; [apply Z.eqb_eq in Hr1; lia|].
           apply visitShop_seated_Some in H as [-> ->].
           apply visit_seated; [by right|done].
  - (* visitShop, after the wait *)
    unfold visitShop_woken, record_drop, waiting_add in H.
    apply bind_Some in H as (r & s1 & l1 & Ha & H).
    apply (assignBarber_Some _ _ _ _ _ _ Hwf) in Ha
        as [(-> & -> & -> & Hocc)|(Hr & Hz & Hocc & _ & -> & ->)].
    + cbn in H. minv. by apply woken_no_chair.
    + destruct (r =? -1) eqn:Hr1; [apply Z.eqb_eq in Hr1; lia|].
      apply bind_Some in H as ([] & s1 & l1 & Hw & H).
      apply visitShop_seated_Some in H as [-> ->]. minv.
      by apply woken_seated.
  - unfold leaveShop_entry in H.
    apply bind_Some in H as (b1 & s1 & l1 & Hi & H).
    apply int_Some in Hi as [_ [= -> -> ->]].
    apply bind_Some in H as ([] & s1 & l1 & Hpr & H).
    apply print_Some in Hpr as [_ [= -> ->]].
    eapply leaveShop_loop_effect; [by left|done].
  - eapply leaveShop_loop_effect; [by right|done].
  - unfold helloCustomer_entry, no_customers in H.
    apply bind_Some in H as (idle & s1 & l1 & Hn & H).
    apply bind_Some in Hn as (wc & s2 & l2 & Hg & Hn).
    apply gets_Some in Hg as [= -> -> ->].
    destruct (waiting_customers_ s =? 0) eqn:Hw.
    + apply Z.eqb_eq in Hw. minv.
      * zfacts. subst. apply hello_sleeps; [done|by apply occupant_Some].
      * apply helloCustomer_loop_Some in H as [-> [[Hz ->]|(c & Hc & Hnz & ->)]].
        -- apply occupant_Some in Hz as [_ Hz]. zfacts. congruence.
        -- eapply hello_starts; [by left|done..].
    + apply Z.eqb_neq in Hw. apply ret_Some in Hn as [= -> -> ->].
      apply helloCustomer_loop_Some in H as [-> [[Hz ->]|(c & Hc & Hnz & ->)]].
      * by apply hello_waits.
      * eapply hello_starts; [by left|done..].
  - apply helloCustomer_loop_Some in H as [-> [[Hz ->]|(c & Hc & Hnz & ->)]].
    + by apply hello_waits_again.
    + eapply hello_starts; [by right|done..].
  - unfold byeCustomer_entry, store_service, store_paid in H. minv.
    by apply bye_done.
  - unfold byeCustomer_woken, store_chair in H. minv. by apply bye_clears.
  - unfold get_cust_drops in H. minv. apply drops_read.
Qed.

(** * Every section runs to its end *)

Lemma bind_eq {A B} (m : M A) (f : A → M B) s l a s1 l1 :
  m s l = Some (a, s1, l1) → (m ≫= f) s l = f a s1 l1.
Proof. intros H. unfold mbind, M_bind, bind. by rewrite H. Qed.

Lemma record_drop_eq s l :
  INT_MIN <= cust_drops_ s + 1 <= INT_MAX →
  record_drop s l = Some (tt, drop_customer s, l).
Proof.
  intros H. unfold record_drop, mbind, M_bind, bind, gets, int.
  apply is_int_spec in H. by rewrite H.
Qed.

Lemma waiting_add_eq k s l :
  INT_MIN <= waiting_customers_ s + k <= INT_MAX →
  waiting_add k s l = Some (tt, move_waiting k s, l).
Proof.
  intros H. unfold waiting_add, mbind, M_bind, bind, gets, int.
  apply is_int_spec in H. by rewrite H.
Qed.

Lemma cond_ok_spec c s :
  cond_ok c s = true ↔
  match c with
  | cond_customers_waiting_ => True
  | cond_customer_served_ b | cond_barber_paid_ b | cond_barber_sleeping_ b =>
      0 <= b < max_working_barb_ s
  end.
Proof.
  destruct c; cbn; [done|..]; rewrite andb_true_iff, Z.leb_le, Z.ltb_lt; done.
Qed.

Ltac arith := cbn in *; unfold INT_MIN, INT_MAX in *; lia.

Ltac mrun_prim :=
  first
    [ apply int_Some; split; [arith|reflexivity]
    | apply load_Some; eexists; split; [arith|split; [eassumption|reflexivity]]
    | apply store_Some; split; [cbn; rewrite ?length_insert; arith|reflexivity]
    | apply signal_Some; split; [apply cond_ok_spec; arith|reflexivity]
    | apply print_Some; split; [arith|reflexivity]
    | apply record_drop_eq; arith
    | apply waiting_add_eq; arith
    | eassumption
    | reflexivity ].

Ltac mrun :=
  repeat match goal with
         | |- context [(?m ≫= ?f) ?s ?l] => erewrite (bind_eq m f s l) by mrun_prim
         end.

Lemma visitShop_seated_eq custID barbID s l :
  wf s → INT_MIN < custID → 0 <= barbID < max_working_barb_ s →
  0 <= waiting_customers_ s <= max_waiting_cust_ s →
  ∃ l', visitShop_seated custID barbID s l =
        Some (Return (Some barbID), mark_service barbID true s, l').
Proof.
  intros [? ? ? ? ?] Hc Hb Hw. unfold visitShop_seated, store_service. mrun.
  eexists. reflexivity.
Qed.

Lemma move_waiting_wf k s : wf s → wf (move_waiting k s).
Proof. intros [? ? ? ? ?]. by split. Qed.

Lemma drop_customer_wf s : wf s → wf (drop_customer s).
Proof. intros [? ? ? ? ?]. by split. Qed.

Ltac seated :=
  match goal with
  | |- is_Some (visitShop_seated ?c ?b ?s ?l) =>
      let l' := fresh "l" in
      destruct (visitShop_seated_eq c b s l) as [l' ->]; [..|by eexists]
  end.

Lemma visitShop_entry_defined custID s :
  wf s → room s → INT_MIN < custID → is_Some (visitShop_entry custID s []).
Proof.
  intros Hwf [Hsb Hd Hw] Hc.
  destruct (assignBarber_defined custID s [] Hwf) as [[[r s1] l1] Ha]; [arith|].
  pose proof (assignBarber_Some _ _ _ _ _ _ Hwf Ha)
    as [(-> & -> & -> & Hocc)|(Hr & Hz & Hocc & Hi & -> & ->)].
  - unfold visitShop_entry. mrun.
    destruct (max_waiting_cust_ s =? 0) eqn:Hmw.
    + mrun. rewrite Z.eqb_refl. mrun. by eexists.
    + mrun. destruct (max_waiting_cust_ s =? waiting_customers_ s) eqn:Hfull.
      * mrun. by eexists.
      * zfacts. destruct Hwf. mrun. rewrite Z.eqb_refl. mrun.
        unfold pthread_cond_wait. cbn. by eexists.
  - assert ((r =? -1) = false) as Hr1 by (apply Z.eqb_neq; lia).
    pose proof (take_chair_wf custID r s Hwf).
    unfold visitShop_entry. mrun.
    destruct (max_waiting_cust_ s =? 0) eqn:Hmw.
    + mrun. rewrite Hr1. seated; done.
    + mrun. destruct (max_waiting_cust_ s =? waiting_customers_ s) eqn:Hfull.
      * mrun. by eexists.
      * mrun. rewrite Hr1. seated; done.
Qed.

Lemma visitShop_woken_defined custID s :
  wf s → room s → INT_MIN < custID → 1 <= waiting_customers_ s →
  is_Some (visitShop_woken custID s []).
Proof.
  intros Hwf [Hsb Hd Hw] Hc Hw1. pose proof Hwf as [? ? ? ? ?].
  destruct (assignBarber_defined custID s [] Hwf) as [[[r s1] l1] Ha]; [arith|].
  pose proof (assignBarber_Some _ _ _ _ _ _ Hwf Ha)
    as [(-> & -> & -> & Hocc)|(Hr & Hz & Hocc & Hi & -> & ->)].
  - unfold visitShop_woken. mrun. rewrite Z.eqb_refl. mrun. by eexists.
  - assert ((r =? -1) = false) as Hr1 by (apply Z.eqb_neq; lia).
    pose proof (move_waiting_wf (-1) _ (take_chair_wf custID r s Hwf)).
    unfold visitShop_woken. mrun. rewrite Hr1. mrun.
    seated; [done..|arith].
Qed.

Lemma leaveShop_loop_defined custID barbID s l :
  wf s → INT_MIN < custID → 0 <= barbID < max_working_barb_ s →
  is_Some (leaveShop_loop custID barbID s l).
Proof.
  intros Hwf Hc Hb. pose proof Hwf as [? ? ? ? ?].
  destruct (lookup_lt_is_Some_2 (in_service_ s) (Z.to_nat barbID)) as [v Hv];
    [lia|].
  unfold leaveShop_loop, store_paid. mrun. destruct v.
  - unfold pthread_cond_wait.
    assert (cond_ok (cond_customer_served_ barbID) s = true) as ->
      by (apply cond_ok_spec; lia).
    by eexists.
  - mrun. by eexists.
Qed.

Lemma helloCustomer_loop_defined barbID s l :
  wf s → 0 <= barbID < max_working_barb_ s →
  is_Some (helloCustomer_loop barbID s l).
Proof.
  intros Hwf Hb. pose proof Hwf as [? ? ? ? ?].
  destruct (lookup_lt_is_Some_2 (customer_in_chair_ s) (Z.to_nat barbID))
    as [v Hv]; [lia|].
  unfold helloCustomer_loop. mrun. destruct (v =? 0).
  - unfold pthread_cond_wait.
    assert (cond_ok (cond_barber_sleeping_ barbID) s = true) as ->
      by (apply cond_ok_spec; lia).
    by eexists.
  - mrun. by eexists.
Qed.

(** Under [wf], [room] and [pc_ok] every section runs to its end. *)
Lemma run_defined p s : wf s → room s → pc_ok p s → is_Some (run p s).
Proof.
  intros Hwf Hroom Hp. unfold run.
  destruct p as [c|c|c b|c b|b|b|b|b|]; cbn [section pc_ok] in *.
  - by apply visitShop_entry_defined.
  - destruct Hp. by apply visitShop_woken_defined.
  - destruct Hp as [Hc Hb]. pose proof Hwf as [? ? ? ? ?].
    unfold leaveShop_entry. mrun. by apply leaveShop_loop_defined.
  - destruct Hp. by apply leaveShop_loop_defined.
  - pose proof Hwf as [? ? ? ? ?]. destruct Hroom as [? ? ?].
    destruct (lookup_lt_is_Some_2 (customer_in_chair_ s) (Z.to_nat b))
      as [v Hv]; [lia|].
    unfold helloCustomer_entry, no_customers.
    destruct (waiting_customers_ s =? 0) eqn:Hw.
    + erewrite (bind_eq _ _ s [] (v =? 0) s []).
      2:{ mrun. rewrite Hw. mrun. reflexivity. }
      destruct (v =? 0).
      * mrun. unfold pthread_cond_wait. cbn.
        assert ((0 <=? b) && (b <? max_working_barb_ s) = true) as ->
          by (rewrite andb_true_iff, Z.leb_le, Z.ltb_lt; lia).
        by eexists.
      * by apply helloCustomer_loop_defined.
    + erewrite (bind_eq _ _ s [] false s []).
      2:{ mrun. rewrite Hw. reflexivity. }
      by apply helloCustomer_loop_defined.
  - by apply helloCustomer_loop_defined.
  - pose proof Hwf as [? ? ? ? ?].
    destruct (lookup_lt_is_Some_2 (customer_in_chair_ s) (Z.to_nat b))
      as [v Hv]; [lia|].
    unfold byeCustomer_entry, store_service, store_paid. mrun.
    unfold pthread_cond_wait. cbn.
    assert ((0 <=? b) && (b <? max_working_barb_ s) = true) as ->
      by (rewrite andb_true_iff, Z.leb_le, Z.ltb_lt; lia).
    by eexists.
  - pose proof Hwf as [? ? ? ? ?]. destruct Hroom as [? ? ?].
    unfold byeCustomer_woken, store_chair. mrun. by eexists.
  - by eexists.
Qed.

(** * A schedule is a run *)

Lemma exec_step P a m m' :
  exec a m = Some m' →
  (∀ t, a = Spawn t → P m t) →
  step P m m'.
Proof.
  intros H HP. destruct a as [i|i|t]; cbn in H.
  - destruct (threads m !! i) as [[a [p|c k|p r]]|] eqn:Ht; try discriminate.
    destruct (run p (shop m)) as [[[o s'] log]|] eqn:Hr; [|discriminate].
    injection H as <-. by eapply step_run.
  - destruct (threads m !! i) as [[a [p|c k|p r]]|] eqn:Ht; try discriminate.
    injection H as <-. by eapply step_wake.
  - destruct (initial t) eqn:Hi; [|discriminate].
    injection H as <-. apply step_spawn; [done|]. by apply HP.
Qed.

Lemma schedule_steps P acts : ∀ m m',
  schedule acts m = Some m' →
  (∀ m0 t, Spawn t ∈ acts → P m0 t) →
  steps P m m'.
Proof.
  induction acts as [|a acts IH]; intros m m' H HP; cbn in H.
  - injection H as <-. apply rtc_refl.
  - destruct (exec a m) as [m1|] eqn:He; [|discriminate].
    eapply rtc_l.
    + eapply exec_step; [done|]. intros t ->. apply HP. by left.
    + apply IH; [done|]. intros m0 t Ht. apply HP. by right.
Qed.

Lemma schedule_steps_nobody acts m m' :
  forallb no_spawn acts = true →
  schedule acts m = Some m' →
  steps nobody m m'.
Proof.
  intros Hn H. eapply schedule_steps; [done|].
  intros m0 t Ht. rewrite forallb_forall in Hn.
  apply list_elem_of_In in Ht. specialize (Hn _ Ht). discriminate.
Qed.

(** * Properties of the sections *)

Lemma mark_service_wf b v s : wf s → wf (mark_service b v s).
Proof. intros [? ? ? ? ?]. split; cbn; try done. by rewrite length_insert. Qed.

Lemma mark_paid_wf b v s : wf s → wf (mark_paid b v s).
Proof. intros [? ? ? ? ?]. split; cbn; try done. by rewrite length_insert. Qed.

Lemma barber_idle_wf s : wf s → wf (barber_idle s).
Proof. intros [? ? ? ? ?]. by split. Qed.

Lemma clear_chair_wf b s : wf s → wf (clear_chair b s).
Proof. intros [? ? ? ? ?]. split; cbn; try done. by rewrite length_insert. Qed.

(** Every section keeps the Shop well formed. *)
Lemma effect_wf p s o s' : effect p s o s' → wf s → wf s'.
Proof.
  intros He Hwf. destruct He;
    auto using drop_customer_wf, move_waiting_wf, take_chair_wf,
      mark_service_wf, mark_paid_wf, barber_idle_wf, clear_chair_wf.
Qed.

Ltac pc_cases :=
  repeat match goal with
         | Hp : leave_pc _ _ _ |- _ => destruct Hp as [Hp|Hp]; simplify_eq
         | Hp : hello_pc _ _ |- _ => destruct Hp as [Hp|Hp]; simplify_eq
         end.

Ltac inv_effect H := inversion H; subst; pc_cases.

Lemma run_total p s :
  wf s → room s → pc_ok p s →
  ∃ o s' log, run p s = Some (o, s', log) ∧ effect p s o s'.
Proof.
  intros Hwf Hroom Hp.
  destruct (run_defined p s Hwf Hroom Hp) as [[[o s'] log] H].
  exists o, s', log. split; [done|]. by eapply run_effect.
Qed.

Lemma first_empty_not_all_occupied s b : first_empty s b → ¬ all_occupied s.
Proof.
  intros (_ & Hz & _) Hall. apply occupant_Some in Hz as [_ Hz].
  unfold all_occupied in Hall. rewrite Forall_lookup in Hall.
  by apply (Hall _ _ Hz).
Qed.

Lemma first_empty_unique s b1 b2 : first_empty s b1 → first_empty s b2 → b1 = b2.
Proof.
  intros (Hr1 & Hz1 & Ho1) (Hr2 & Hz2 & Ho2).
  destruct (Z.lt_trichotomy b1 b2) as [Hlt|[Heq|Hgt]]; [|done|].
  - destruct (Ho2 b1) as (c & Hc & Hnz); [lia|]. congruence.
  - destruct (Ho1 b2) as (c & Hc & Hnz); [lia|]. congruence.
Qed.

Lemma occupant_insert s b c j :
  0 <= b < Z.of_nat (length (customer_in_chair_ s)) →
  occupant (set_customer_in_chair_
              (<[Z.to_nat b := c]> (customer_in_chair_ s)) s) j =
  if decide (j = b) then Some c else occupant s j.
Proof.
  intros Hb. unfold occupant. cbn. destruct (0 <=? j) eqn:Hj.
  - apply Z.leb_le in Hj. destruct (decide (j = b)) as [->|Hne].
    + apply list_lookup_insert_eq. lia.
    + apply list_lookup_insert_ne. lia.
  - apply Z.leb_gt in Hj. destruct (decide (j = b)); [lia|done].
Qed.

Lemma Shop_new_wf num_barbers num_chairs :
  INT_MIN <= num_barbers <= INT_MAX → INT_MIN <= num_chairs <= INT_MAX →
  wf (Shop_new num_barbers num_chairs).
Proof.
  intros Hb Hc. unfold Shop_new, new_array, kDefaultBarbers, kDefaultNumChairs.
  destruct (num_chairs >=? 0) eqn:E1; destruct (num_barbers >? 0) eqn:E2;
    split; cbn; rewrite ?length_replicate; unfold INT_MIN, INT_MAX in *; lia.
Qed.

Lemma Shop_new_room num_barbers num_chairs :
  INT_MIN <= num_chairs <= INT_MAX → room (Shop_new num_barbers num_chairs).
Proof.
  intros Hc. unfold Shop_new, kDefaultNumChairs.
  destruct (num_chairs >=? 0) eqn:E1;
    split; cbn; unfold INT_MIN, INT_MAX in *; lia.
Qed.

(** C8: the constructor with arguments keeps [num_barbers] when it is
    positive and [num_chairs] when it is not negative, and puts the defaults
    1 and 3 in their place otherwise; the constructor without arguments takes
    both defaults.  Each constructor builds a Shop whatever its arguments. *)
Theorem C8_constructor_defaults (num_barbers num_chairs : Z) :
  (0 < num_barbers →
   max_working_barb_ (Shop_new num_barbers num_chairs) = num_barbers) ∧
  (num_barbers <= 0 →
   max_working_barb_ (Shop_new num_barbers num_chairs) = 1) ∧
  (0 <= num_chairs →
   max_waiting_cust_ (Shop_new num_barbers num_chairs) = num_chairs) ∧
  (num_chairs < 0 →
   max_waiting_cust_ (Shop_new num_barbers num_chairs) = 3) ∧
  max_working_barb_ Shop_default = 1 ∧
  max_waiting_cust_ Shop_default = 3.
Proof.
  unfold Shop_new, Shop_default, kDefaultBarbers, kDefaultNumChairs. cbn.
  repeat split.
  - intros H. destruct (num_barbers >? 0) eqn:E; [done|]. lia.
  - intros H. destruct (num_barbers >? 0) eqn:E; [lia|done].
  - intros H. destruct (num_chairs >=? 0) eqn:E; [done|]. lia.
  - intros H. destruct (num_chairs >=? 0) eqn:E; [lia|done].
Qed.

Lemma C8_constructor_defaults_witness :
  max_working_barb_ (Shop_new 4 (-2)) = 4 ∧
  max_waiting_cust_ (Shop_new 4 (-2)) = 3 ∧
  max_working_barb_ (Shop_new 0 0) = 1 ∧
  max_waiting_cust_ (Shop_new 0 0) = 0.
Proof.
  destruct (C8_constructor_defaults 4 (-2)) as (H1 & _ & _ & H2 & _).
  destruct (C8_constructor_defaults 0 0) as (_ & H3 & H4 & _).
  split; [apply H1; lia|]. split; [apply H2; lia|].
  split; [apply H3; lia|apply H4; lia].
Defined.

(** C2: assignBarber returns the lowest-numbered chair that holds no
    customer, having put [custID] in it and touched no other chair; it
    returns -1 exactly when every chair holds a customer, and then no chair
    changes. *)
Theorem C2_assignBarber_first_empty (custID : Z) (s : Shop) :
  wf s → INT_MIN < sleeping_barbs_ s <= INT_MAX →
  ∃ r s' log,
    assignBarber custID s [] = Some (r, s', log) ∧
    (r = -1 ↔ all_occupied s) ∧
    (r = -1 → s' = s) ∧
    (r ≠ -1 →
     first_empty s r ∧
     occupant s' r = Some custID ∧
     (∀ j, j ≠ r → occupant s' j = occupant s j) ∧
     in_service_ s' = in_service_ s ∧ money_paid_ s' = money_paid_ s).
Proof.
  intros Hwf Hsb.
  destruct (assignBarber_defined custID s [] Hwf Hsb) as [[[r s'] log] H].
  exists r, s', log. split; [done|].
  apply (assignBarber_Some _ _ _ _ _ _ Hwf) in H
    as [(-> & -> & -> & Hocc)|(Hr & Hz & Hocc & Hi & -> & ->)].
  - split; [done|]. split; [done|]. intros []. done.
  - assert (Hfe : first_empty s r) by done.
    split; [split; [lia|]|].
    { intros Hall. by apply first_empty_not_all_occupied in Hfe. }
    split; [lia|]. intros _. split; [done|].
    assert (0 <= r < Z.of_nat (length (customer_in_chair_ s)))
      by (destruct Hwf; lia).
    split; [|split; [|done]].
    + unfold take_chair. cbn -[occupant].
      change (occupant (set_customer_in_chair_
                (<[Z.to_nat r := custID]> (customer_in_chair_ s)) s) r
              = Some custID).
      rewrite occupant_insert by done. by rewrite decide_True.
    + intros j Hj.
      change (occupant (set_customer_in_chair_
                (<[Z.to_nat r := custID]> (customer_in_chair_ s)) s) j
              = occupant s j).
      rewrite occupant_insert by done. by rewrite decide_False.
Qed.

Lemma C2_assignBarber_first_empty_witness :
  ∃ s' log,
    assignBarber 7 (Shop_new 2 0) [] = Some (0, s', log) ∧
    occupant s' 0 = Some 7 ∧ occupant s' 1 = Some 0.
Proof.
  destruct (C2_assignBarber_first_empty 7 (Shop_new 2 0))
    as (r & s' & log & H & _ & _ & Hne).
  - apply Shop_new_wf; unfold INT_MIN, INT_MAX; lia.
  - cbn. unfold INT_MIN, INT_MAX. lia.
  - vm_compute in H. injection H as <- <- <-.
    eexists _, _. split; [reflexivity|]. split; reflexivity.
Defined.

Lemma serving_insert s b v j :
  0 <= b < Z.of_nat (length (in_service_ s)) →
  serving (mark_service b v s) j =
  if decide (j = b) then Some v else serving s j.
Proof.
  intros Hb. unfold serving, mark_service. cbn. destruct (0 <=? j) eqn:Hj.
  - apply Z.leb_le in Hj. destruct (decide (j = b)) as [->|Hne].
    + apply list_lookup_insert_eq. lia.
    + apply list_lookup_insert_ne. lia.
  - apply Z.leb_gt in Hj. destruct (decide (j = b)); [lia|done].
Qed.

Lemma paid_insert s b v j :
  0 <= b < Z.of_nat (length (money_paid_ s)) →
  paid (mark_paid b v s) j = if decide (j = b) then Some v else paid s j.
Proof.
  intros Hb. unfold paid, mark_paid. cbn. destruct (0 <=? j) eqn:Hj.
  - apply Z.leb_le in Hj. destruct (decide (j = b)) as [->|Hne].
    + apply list_lookup_insert_eq. lia.
    + apply list_lookup_insert_ne. lia.
  - apply Z.leb_gt in Hj. destruct (decide (j = b)); [lia|done].
Qed.

(** C3: with waiting chairs, a free one, and no free service chair, visitShop
    takes a waiting chair and blocks on [cond_customers_waiting_].  When the
    wait returns it calls assignBarber once and returns in every case: -1
    with one more drop when no chair is free, the chair found and
    [in_service_] set otherwise; [waiting_customers_] goes down by one in
    both cases. *)
Theorem C3_visitShop_single_retry (custID : Z) (s : Shop) :
  wf s → room s → INT_MIN < custID →
  max_waiting_cust_ s ≠ 0 →
  max_waiting_cust_ s ≠ waiting_customers_ s →
  all_occupied s →
  (∃ s1 log,
     run (VisitShop custID) s =
       Some (Block cond_customers_waiting_ (VisitShop_woken custID), s1, log) ∧
     waiting_customers_ s1 = waiting_customers_ s + 1 ∧
     cust_drops_ s1 = cust_drops_ s ∧
     customer_in_chair_ s1 = customer_in_chair_ s) ∧
  (∀ s2, wf s2 → room s2 → 1 <= waiting_customers_ s2 →
     ∃ r s3 log,
       run (VisitShop_woken custID) s2 = Some (Return (Some r), s3, log) ∧
       waiting_customers_ s3 = waiting_customers_ s2 - 1 ∧
       ((r = -1 ∧ all_occupied s2 ∧
         cust_drops_ s3 = cust_drops_ s2 + 1 ∧
         customer_in_chair_ s3 = customer_in_chair_ s2 ∧
         in_service_ s3 = in_service_ s2) ∨
        (first_empty s2 r ∧
         cust_drops_ s3 = cust_drops_ s2 ∧
         occupant s3 r = Some custID ∧
         serving s3 r = Some true))).
Proof.
  intros Hwf Hroom Hc Hmw Hfull Hocc. split.
  - destruct (run_total (VisitShop custID) s Hwf Hroom Hc)
      as (o & s1 & log & Hrun & He).
    inv_effect He; try congruence;
      try (exfalso; eapply first_empty_not_all_occupied; eauto; fail).
    eexists _, _. split; [done|]. done.
  - intros s2 Hwf2 Hroom2 Hw.
    destruct (run_total (VisitShop_woken custID) s2 Hwf2 Hroom2 (conj Hc Hw))
      as (o & s3 & log & Hrun & He).
    inv_effect He.
    + eexists _, _, _. split; [done|]. split; [cbn; lia|]. left. done.
    + eexists _, _, _. split; [done|]. split; [cbn; lia|]. right.
      match goal with H : first_empty _ ?b |- _ =>
        pose proof H as (Hr & Hz & Ho); rename b into r end.
      pose proof Hwf2 as [? ? ? ? ?].
      split; [done|]. split; [done|]. split.
      * unfold occupant. cbn. destruct (0 <=? r) eqn:E; [|lia].
        apply list_lookup_insert_eq. lia.
      * rewrite serving_insert by (cbn; lia). by rewrite decide_True.
Qed.

Lemma C3_visitShop_single_retry_witness :
  ∃ s1 log,
    run (VisitShop 2) (mark_service 0 true (take_chair 1 0 (Shop_new 1 1))) =
      Some (Block cond_customers_waiting_ (VisitShop_woken 2), s1, log) ∧
    waiting_customers_ s1 = 1.
Proof.
  destruct (C3_visitShop_single_retry 2
              (mark_service 0 true (take_chair 1 0 (Shop_new 1 1))))
    as [(s1 & log & H & Hw & _) _].
  - apply mark_service_wf, take_chair_wf, Shop_new_wf;
      unfold INT_MIN, INT_MAX; lia.
  - split; cbn; unfold INT_MIN, INT_MAX; lia.
  - unfold INT_MIN. lia.
  - cbn. lia.
  - cbn. lia.
  - repeat constructor. cbn. lia.
  - exists s1, log. split; [exact H|]. rewrite Hw. reflexivity.
Defined.

(** C4: visitShop returns -1 without waiting in two cases and no other: the
    shop has no waiting chair and every service chair is taken, or it has
    waiting chairs and all of them are taken (whether a service chair is
    free or not).  The call then adds one to [cust_drops_] and leaves
    [waiting_customers_], [sleeping_barbs_] and the three arrays as they
    were. *)
Theorem C4_visitShop_immediate_drop (custID : Z) (s : Shop) :
  wf s → room s → INT_MIN < custID →
  ∃ o s' log,
    run (VisitShop custID) s = Some (o, s', log) ∧
    (o = Return (Some (-1)) ↔
     (max_waiting_cust_ s = 0 ∧ all_occupied s) ∨
     (0 < max_waiting_cust_ s ∧ waiting_customers_ s = max_waiting_cust_ s)) ∧
    (o = Return (Some (-1)) →
     cust_drops_ s' = cust_drops_ s + 1 ∧
     waiting_customers_ s' = waiting_customers_ s ∧
     sleeping_barbs_ s' = sleeping_barbs_ s ∧
     customer_in_chair_ s' = customer_in_chair_ s ∧
     in_service_ s' = in_service_ s ∧
     money_paid_ s' = money_paid_ s).
Proof.
  intros Hwf Hroom Hc.
  destruct (run_total (VisitShop custID) s Hwf Hroom Hc)
    as (o & s' & log & Hrun & He).
  exists o, s', log. split; [done|]. pose proof Hwf as [? ? ? ? ?].
  inv_effect He.
  - split; [|done]. split; [intros _; by left|done].
  - split; [|done]. split; [intros _; right; lia|done].
  - match goal with H : first_empty _ ?b |- _ =>
      pose proof H as (Hr & Hz & Ho);
      pose proof (first_empty_not_all_occupied _ _ H) end.
    split.
    + split.
      * intros [= ->]. lia.
      * intros [[? ?]|[? ?]]; [done|]. exfalso. lia.
    + intros [= ->]. lia.
  - split; [|done]. split; [done|].
    intros [[? ?]|[? ?]]; exfalso; lia.
Qed.

Lemma C4_visitShop_immediate_drop_witness :
  ∃ s' log,
    run (VisitShop 5) (move_waiting 1 (Shop_new 1 1)) =
      Some (Return (Some (-1)), s', log) ∧
    occupant (move_waiting 1 (Shop_new 1 1)) 0 = Some 0 ∧
    cust_drops_ s' = 1.
Proof.
  destruct (C4_visitShop_immediate_drop 5 (move_waiting 1 (Shop_new 1 1)))
    as (o & s' & log & H & [_ Hiff] & Hfr).
  - apply move_waiting_wf, Shop_new_wf; unfold INT_MIN, INT_MAX; lia.
  - split; cbn; unfold INT_MIN, INT_MAX; lia.
  - unfold INT_MIN. lia.
  - assert (o = Return (Some (-1))) as -> by (apply Hiff; right; cbn; lia).
    exists s', log. split; [exact H|]. split; [reflexivity|].
    destruct (Hfr eq_refl) as [Hd _]. rewrite Hd. reflexivity.
Defined.

(** C7: leaveShop, for a barber of the shop, waits as long as
    [in_service_[barbID]] is true; once it is false it sets
    [money_paid_[barbID]] and returns, and nothing else has changed: the
    chairs (so the occupant of the slot), [in_service_], the counters and the
    other slots' [money_paid_] are as they were. *)
Theorem C7_leaveShop_frame (p : pc) (custID barbID : Z) (s : Shop) :
  wf s → INT_MIN < custID → 0 <= barbID < max_working_barb_ s →
  leave_pc p custID barbID →
  ∃ o s' log,
    run p s = Some (o, s', log) ∧
    ((serving s barbID = Some true ∧
      o = Block (cond_customer_served_ barbID) (LeaveShop_loop custID barbID) ∧
      s' = s) ∨
     (serving s barbID = Some false ∧
      o = Return None ∧
      paid s' barbID = Some true ∧
      (∀ j, j ≠ barbID → paid s' j = paid s j) ∧
      customer_in_chair_ s' = customer_in_chair_ s ∧
      in_service_ s' = in_service_ s ∧
      waiting_customers_ s' = waiting_customers_ s ∧
      cust_drops_ s' = cust_drops_ s ∧
      sleeping_barbs_ s' = sleeping_barbs_ s ∧
      max_waiting_cust_ s' = max_waiting_cust_ s ∧
      max_working_barb_ s' = max_working_barb_ s)).
Proof.
  intros Hwf Hc Hb Hp.
  assert (is_Some (run p s)) as [[[o s'] log] Hrun].
  { destruct Hp as [-> | ->]; unfold run; cbn [section].
    - pose proof Hwf as [? ? ? ? ?]. unfold leaveShop_entry. mrun.
      by apply leaveShop_loop_defined.
    - by apply leaveShop_loop_defined. }
  exists o, s', log. split; [done|].
  pose proof (run_effect _ _ _ _ _ Hwf Hrun) as He.
  destruct Hp as [-> | ->]; inv_effect He.
  - left. done.
  - right. repeat (split; [done|]). split; [|split; [|done]].
    + rewrite paid_insert by done. by rewrite decide_True.
    + intros j Hj. rewrite paid_insert by done. by rewrite decide_False.
  - left. done.
  - right. repeat (split; [done|]). split; [|split; [|done]].
    + rewrite paid_insert by done. by rewrite decide_True.
    + intros j Hj. rewrite paid_insert by done. by rewrite decide_False.
Qed.

Lemma C7_leaveShop_frame_witness :
  ∃ s' log,
    run (LeaveShop 1 0) (take_chair 1 0 (Shop_new 1 1)) =
      Some (Return None, s', log) ∧
    paid s' 0 = Some true ∧ occupant s' 0 = Some 1.
Proof.
  destruct (C7_leaveShop_frame (LeaveShop 1 0) 1 0
              (take_chair 1 0 (Shop_new 1 1)))
    as (o & s' & log & H & [(Hs & _)|(_ & -> & Hp & _ & Hch & _)]).
  - apply take_chair_wf, Shop_new_wf; unfold INT_MIN, INT_MAX; lia.
  - unfold INT_MIN. lia.
  - cbn. lia.
  - by left.
  - discriminate Hs.
  - exists s', log. split; [exact H|]. split; [exact Hp|].
    unfold occupant. rewrite Hch. reflexivity.
Defined.

(** * Properties of the runs *)

Lemma step_inv P m m' :
  step P m m' → wf (shop m) →
  (∃ i a p o,
     threads m !! i = Some (mkThread a (Ready p)) ∧
     effect p (shop m) o (shop m') ∧
     threads m' = <[i := mkThread a (next a p o)]> (threads m)) ∨
  (∃ i a c k,
     threads m !! i = Some (mkThread a (Blocked c k)) ∧
     shop m' = shop m ∧
     threads m' = <[i := mkThread a (Ready k)]> (threads m)) ∨
  (∃ t, initial t = true ∧ P m t ∧
        shop m' = shop m ∧ threads m' = threads m ++ [t]).
Proof.
  intros Hs Hwf. destruct Hs as [m i a p o s' log Ht Hrun|m i a c k Ht|m t Hi HP].
  - left. exists i, a, p, o. cbn. split; [done|]. split; [|done].
    by eapply run_effect.
  - right. left. exists i, a, c, k. done.
  - right. right. exists t. done.
Qed.

Lemma step_wf P m m' : step P m m' → wf (shop m) → wf (shop m').
Proof.
  intros Hs Hwf.
  destruct (step_inv _ _ _ Hs Hwf)
    as [(i & a & p & o & _ & He & _)|[(i & a & c & k & _ & -> & _)|(t & _ & _ & -> & _)]];
    [by eapply effect_wf|done..].
Qed.

Lemma steps_wf P m m' : steps P m m' → wf (shop m) → wf (shop m').
Proof. induction 1; eauto using step_wf. Qed.

Lemma tally_app f ts1 ts2 : tally f (ts1 ++ ts2) = tally f ts1 + tally f ts2.
Proof. induction ts1 as [|t ts1 IH]; cbn; lia. Qed.

Lemma tally_insert f ts : ∀ i t t',
  ts !! i = Some t →
  tally f (<[i := t']> ts) = tally f ts - b2z (f t) + b2z (f t').
Proof.
  induction ts as [|t0 ts IH]; intros [|i] t t' H; try done; simpl in *.
  - injection H as ->. lia.
  - rewrite (IH i t t' H). lia.
Qed.

Lemma tally_nonneg f ts : 0 <= tally f ts.
Proof. induction ts as [|t ts IH]; cbn; [lia|]. destruct (f t); cbn; lia. Qed.

Lemma first_empty_nonneg s b : first_empty s b → (b =? -1) = false.
Proof. intros [? _]. apply Z.eqb_neq. lia. Qed.

(** A section adds one to [cust_drops_] exactly when it makes its thread a
    dropped customer; no section takes anything from [cust_drops_]. *)
Lemma effect_drops a p s o s' :
  effect p s o s' →
  cust_drops_ s' = cust_drops_ s + b2z (dropped (mkThread a (next a p o))).
Proof.
  intros He. destruct He; pc_cases;
    try (match goal with H : first_empty _ _ |- _ =>
           pose proof (first_empty_nonneg _ _ H) as Hnn end);
    destruct a; cbn; rewrite ?Hnn; cbn; rewrite ?Hnn; cbn; lia.
Qed.

(** A section changes [waiting_customers_] exactly as it changes whether its
    thread sits on a waiting chair. *)
Lemma effect_waiting a p s o s' :
  effect p s o s' →
  waiting_customers_ s' =
  waiting_customers_ s - b2z (in_waiting (mkThread a (Ready p)))
  + b2z (in_waiting (mkThread a (next a p o))).
Proof.
  intros He. destruct He; pc_cases;
    try (match goal with H : first_empty _ _ |- _ =>
           pose proof (first_empty_nonneg _ _ H) as Hnn end);
    destruct a; cbn; rewrite ?Hnn; cbn; lia.
Qed.

Lemma initial_fresh t :
  initial t = true → dropped t = false ∧ in_waiting t = false.
Proof.
  destruct t as [a [p|c p|p r]]; destruct a; cbn; try done;
    destruct p; cbn; done.
Qed.

(** [cust_drops_] counts the calls of visitShop that have returned -1. *)
Lemma step_drops P m m' :
  step P m m' → wf (shop m) →
  cust_drops_ (shop m') - tally dropped (threads m') =
  cust_drops_ (shop m) - tally dropped (threads m).
Proof.
  intros Hs Hwf.
  destruct (step_inv _ _ _ Hs Hwf)
    as [(i & a & p & o & Ht & He & ->)|[(i & a & c & k & Ht & -> & ->)|(t & Hi & _ & -> & ->)]].
  - rewrite (tally_insert _ _ _ _ _ Ht).
    rewrite (effect_drops a _ _ _ _ He). cbn. lia.
  - rewrite (tally_insert _ _ _ _ _ Ht). cbn. lia.
  - rewrite tally_app. cbn. destruct (initial_fresh _ Hi) as [-> _]. cbn. lia.
Qed.

Lemma steps_drops P m m' :
  steps P m m' → wf (shop m) →
  cust_drops_ (shop m') - tally dropped (threads m') =
  cust_drops_ (shop m) - tally dropped (threads m).
Proof.
  induction 1 as [|m1 m2 m3 Hs _ IH]; intros Hwf; [done|].
  rewrite IH by (by eapply step_wf). by eapply step_drops.
Qed.

Lemma step_drops_mono P m m' :
  step P m m' → wf (shop m) → cust_drops_ (shop m) <= cust_drops_ (shop m').
Proof.
  intros Hs Hwf.
  destruct (step_inv _ _ _ Hs Hwf)
    as [(i & a & p & o & Ht & He & _)|[(i & a & c & k & _ & -> & _)|(t & _ & _ & -> & _)]];
    [|done..].
  rewrite (effect_drops a _ _ _ _ He).
  destruct (dropped _); cbn; lia.
Qed.

Lemma steps_drops_mono P m m' :
  steps P m m' → wf (shop m) → cust_drops_ (shop m) <= cust_drops_ (shop m').
Proof.
  induction 1 as [|m1 m2 m3 Hs _ IH]; intros Hwf; [done|].
  etrans; [by eapply step_drops_mono|]. apply IH. by eapply step_wf.
Qed.

Lemma effect_waiting_le p s o s' :
  effect p s o s' →
  waiting_customers_ s <= max_waiting_cust_ s →
  waiting_customers_ s' <= max_waiting_cust_ s'.
Proof. intros He Hle. destruct He; cbn; lia. Qed.

Lemma step_waiting P m m' :
  step P m m' → wf (shop m) → waiting_inv m → waiting_inv m'.
Proof.
  intros Hs Hwf [Heq Hle]. unfold waiting_inv.
  destruct (step_inv _ _ _ Hs Hwf)
    as [(i & a & p & o & Ht & He & ->)|[(i & a & c & k & Ht & -> & ->)|(t & Hi & _ & -> & ->)]].
  - split; [|by eapply effect_waiting_le].
    rewrite (tally_insert _ _ _ _ _ Ht).
    rewrite (effect_waiting a _ _ _ _ He). lia.
  - split; [|done]. rewrite (tally_insert _ _ _ _ _ Ht). cbn. lia.
  - split; [|done]. rewrite tally_app. cbn.
    destruct (initial_fresh _ Hi) as [_ ->]. cbn. lia.
Qed.

Lemma steps_waiting P m m' :
  steps P m m' → wf (shop m) → waiting_inv m → waiting_inv m'.
Proof.
  induction 1 as [|m1 m2 m3 Hs _ IH]; intros Hwf Hinv; [done|].
  apply IH; [by eapply step_wf|by eapply step_waiting].
Qed.

Lemma waiting_inv_ok m : waiting_inv m → waiting_ok (shop m).
Proof.
  intros [Heq Hle]. split; [|done]. rewrite Heq. apply tally_nonneg.
Qed.

(** C1: a section of visitShop either blocks, leaving [cust_drops_] alone, or
    returns -1 having added exactly one to [cust_drops_], or returns a slot
    of the shop having left [cust_drops_] alone; the sections of the other
    methods never change [cust_drops_]; so along any run [cust_drops_] never
    goes down, and it grows by the number of visitShop calls that returned
    -1. *)
Theorem C1_visitShop_result_and_drops :
  (∀ p s, is_visit p = true → wf s → room s → pc_ok p s →
     ∃ o s' log,
       run p s = Some (o, s', log) ∧
       match o with
       | Return r =>
           (r = Some (-1) ∧ cust_drops_ s' = cust_drops_ s + 1) ∨
           (∃ b, r = Some b ∧ 0 <= b < max_working_barb_ s ∧
                 cust_drops_ s' = cust_drops_ s)
       | Block _ k => is_visit k = true ∧ cust_drops_ s' = cust_drops_ s
       end) ∧
  (∀ p s o s' log, is_visit p = false → wf s →
     run p s = Some (o, s', log) → cust_drops_ s' = cust_drops_ s) ∧
  (∀ P m m', wf (shop m) → steps P m m' →
     cust_drops_ (shop m) <= cust_drops_ (shop m') ∧
     cust_drops_ (shop m') - cust_drops_ (shop m) =
     tally dropped (threads m') - tally dropped (threads m)).
Proof.
  split; [|split].
  - intros p s Hv Hwf Hroom Hp.
    destruct (run_total p s Hwf Hroom Hp) as (o & s' & log & Hrun & He).
    exists o, s', log. split; [done|].
    inv_effect He; try discriminate; cbn;
      try (by left); try done;
      right; eexists; (split; [done|]);
      match goal with H : first_empty _ _ |- _ => destruct H as [? _] end;
      done.
  - intros p s o s' log Hv Hwf Hrun.
    apply run_effect in Hrun; [|done].
    inv_effect Hrun; try discriminate; done.
  - intros P m m' Hwf Hs. split; [by eapply steps_drops_mono|].
    pose proof (steps_drops _ _ _ Hs Hwf). lia.
Qed.

Lemma C1_visitShop_result_and_drops_witness :
  (∃ s' log, run (VisitShop 1) (Shop_new 1 0) = Some (Return (Some 0), s', log) ∧
             cust_drops_ s' = 0) ∧
  (∃ s' log, run (VisitShop 2) (mark_service 0 true (take_chair 1 0 (Shop_new 1 0)))
             = Some (Return (Some (-1)), s', log) ∧
             cust_drops_ s' = 1).
Proof.
  destruct C1_visitShop_result_and_drops as (Hvisit & _ & _). split.
  - destruct (Hvisit (VisitShop 1) (Shop_new 1 0)) as (o & s' & log & H & Ho).
    + reflexivity.
    + apply Shop_new_wf; unfold INT_MIN, INT_MAX; lia.
    + apply Shop_new_room; unfold INT_MIN, INT_MAX; lia.
    + cbn. unfold INT_MIN. lia.
    + vm_compute in H. injection H as <- <- <-.
      eexists _, _. split; reflexivity.
  - destruct (Hvisit (VisitShop 2)
                (mark_service 0 true (take_chair 1 0 (Shop_new 1 0))))
      as (o & s' & log & H & Ho).
    + reflexivity.
    + apply mark_service_wf, take_chair_wf, Shop_new_wf;
        unfold INT_MIN, INT_MAX; lia.
    + split; cbn; unfold INT_MIN, INT_MAX; lia.
    + cbn. unfold INT_MIN. lia.
    + vm_compute in H. injection H as <- <- <-.
      eexists _, _. split; reflexivity.
Defined.

Lemma effect_shape a p s o s' :
  effect p s o s' →
  shape (mkThread a (Ready p)) = true →
  shape (mkThread a (next a p o)) = true.
Proof.
  intros He. destruct He; pc_cases;
    try (match goal with H : first_empty _ _ |- _ =>
           pose proof (first_empty_nonneg _ _ H) as Hnn end);
    destruct a; cbn; rewrite ?Hnn; cbn; done.
Qed.

Lemma shape_joined t :
  shape t = true → joined t = true →
  b2z (is_customer t) = b2z (served t) + b2z (dropped t).
Proof.
  destruct t as [[] [p|c p|p r]]; cbn; try done.
  unfold dropped. cbn. destruct r as [r|]; destruct p; cbn; try done;
    destruct (r =? -1); cbn; done.
Qed.

Lemma tally_joined ts :
  Forall (λ t, shape t = true) ts → forallb joined ts = true →
  tally is_customer ts = tally served ts + tally dropped ts.
Proof.
  induction 1 as [|t ts Ht _ IH]; cbn; [done|].
  intros [Hj Hjs]%andb_true_iff. rewrite (shape_joined t Ht Hj), (IH Hjs). lia.
Qed.

Lemma step_driver m m' :
  step nobody m m' → wf (shop m) → driver_inv m →
  driver_inv m' ∧
  tally is_customer (threads m') = tally is_customer (threads m).
Proof.
  intros Hs Hwf Hinv. unfold driver_inv in *.
  destruct (step_inv _ _ _ Hs Hwf)
    as [(i & a & p & o & Ht & He & ->)|[(i & a & c & k & Ht & _ & ->)|(t & _ & [] & _)]].
  - split.
    + apply Forall_insert; [done|]. eapply effect_shape; [done|].
      by apply (Forall_lookup_1 _ _ _ _ Hinv Ht).
    + rewrite (tally_insert _ _ _ _ _ Ht). destruct a; cbn; lia.
  - split.
    + apply Forall_insert; [done|].
      pose proof (Forall_lookup_1 _ _ _ _ Hinv Ht) as Hsh.
      destruct a; exact Hsh.
    + rewrite (tally_insert _ _ _ _ _ Ht). destruct a; cbn; lia.
Qed.

Lemma steps_driver m m' :
  steps nobody m m' → wf (shop m) → driver_inv m →
  driver_inv m' ∧
  tally is_customer (threads m') = tally is_customer (threads m).
Proof.
  induction 1 as [|m1 m2 m3 Hs _ IH]; intros Hwf Hinv; [done|].
  destruct (step_driver _ _ Hs Hwf Hinv) as [Hinv2 Heq].
  destruct (IH (step_wf _ _ _ Hs Hwf) Hinv2) as [Hinv3 Heq3].
  split; [done|]. lia.
Qed.

Lemma tally_fmap_const f (g : Z → thread) (b : bool) l :
  (∀ i, f (g i) = b) →
  tally f (g <$> l) = if b then Z.of_nat (length l) else 0.
Proof.
  intros H. induction l as [|x l IH]; [by destruct b|].
  rewrite fmap_cons. cbn [tally]. rewrite H, IH, length_cons, Nat2Z.inj_succ.
  destruct b; cbn; lia.
Qed.

Lemma main_Some nb nc ncust st m0 :
  main nb nc ncust st = Some m0 →
  1 <= nb ∧ 0 <= nc ∧ 1 <= ncust ∧
  m0 = mkMachine (Shop_new nb nc)
         ((barber_thread <$> seqZ 0 nb) ++ (customer_thread <$> seqZ 0 ncust))
         [].
Proof.
  unfold main. intros H.
  destruct (nb <? 1) eqn:E1; [done|]. destruct (ncust <? 1) eqn:E2; [done|].
  destruct (st <? 1) eqn:E3; [done|]. destruct (nc <? 0) eqn:E4; [done|].
  cbn in H. injection H as <-. repeat split; lia.
Qed.

Lemma main_init nb nc ncust st m0 :
  nb <= INT_MAX → nc <= INT_MAX →
  main nb nc ncust st = Some m0 →
  wf (shop m0) ∧ driver_inv m0 ∧
  tally is_customer (threads m0) = ncust ∧
  tally dropped (threads m0) = 0 ∧
  cust_drops_ (shop m0) = 0.
Proof.
  intros Hb Hc H. apply main_Some in H as (Hnb & Hnc & Hncust & ->). cbn.
  split; [apply Shop_new_wf; unfold INT_MIN, INT_MAX in *; lia|].
  split; [|split; [|split; [|done]]].
  - unfold driver_inv. cbn. apply Forall_app. split; by apply Forall_fmap, Forall_true.
  - rewrite tally_app.
    rewrite (tally_fmap_const is_customer barber_thread false) by done.
    rewrite (tally_fmap_const is_customer customer_thread true) by done.
    rewrite length_seqZ. lia.
  - rewrite tally_app.
    rewrite (tally_fmap_const dropped barber_thread false) by done.
    rewrite (tally_fmap_const dropped customer_thread false) by done.
    done.
Qed.

(** C9: in every run of the driver, when all the customer threads have
    finished, the customers that went through leaveShop and the count read
    by get_cust_drops add up to [num_customers]. *)
Theorem C9_served_plus_drops (nb nc ncust st : Z) (m0 m : machine) :
  nb <= INT_MAX → nc <= INT_MAX →
  main nb nc ncust st = Some m0 →
  steps nobody m0 m →
  forallb joined (threads m) = true →
  tally served (threads m) + cust_drops_ (shop m) = ncust.
Proof.
  intros Hb Hc Hmain Hsteps Hjoined.
  destruct (main_init _ _ _ _ _ Hb Hc Hmain) as (Hwf & Hinv & Hcust & Hd0 & Hdrops0).
  destruct (steps_driver _ _ Hsteps Hwf Hinv) as [Hinv' Hcust'].
  pose proof (steps_drops _ _ _ Hsteps Hwf) as Hd.
  pose proof (tally_joined _ Hinv' Hjoined). lia.
Qed.

Lemma C9_served_plus_drops_witness :
  ∃ m0 m,
    main 1 0 2 1 = Some m0 ∧
    schedule C9_schedule m0 = Some m ∧
    tally served (threads m) = 1 ∧ cust_drops_ (shop m) = 1 ∧
    tally served (threads m) + cust_drops_ (shop m) = 2.
Proof.
  eexists _, _. split; [reflexivity|]. split; [vm_compute; reflexivity|].
  split; [reflexivity|]. split; [reflexivity|].
  eapply (C9_served_plus_drops 1 0 2 1).
  - unfold INT_MAX. lia.
  - unfold INT_MAX. lia.
  - reflexivity.
  - eapply (schedule_steps_nobody C9_schedule); [reflexivity|].
    vm_compute. reflexivity.
  - reflexivity.
Defined.

(** ** The state of a slot under each update *)

Lemma occupant_take_chair c b s j :
  0 <= b < Z.of_nat (length (customer_in_chair_ s)) →
  occupant (take_chair c b s) j = if decide (j = b) then Some c else occupant s j.
Proof. intros Hb. by rewrite <- (occupant_insert s b c j Hb). Qed.

Lemma occupant_clear_chair b s j :
  0 <= b < Z.of_nat (length (customer_in_chair_ s)) →
  occupant (clear_chair b s) j = if decide (j = b) then Some 0 else occupant s j.
Proof. intros Hb. by rewrite <- (occupant_insert s b 0 j Hb). Qed.

Lemma occupant_drop_customer s j : occupant (drop_customer s) j = occupant s j.
Proof. done. Qed.
Lemma occupant_move_waiting k s j : occupant (move_waiting k s) j = occupant s j.
Proof. done. Qed.
Lemma occupant_mark_service b v s j : occupant (mark_service b v s) j = occupant s j.
Proof. done. Qed.
Lemma occupant_mark_paid b v s j : occupant (mark_paid b v s) j = occupant s j.
Proof. done. Qed.
Lemma occupant_barber_idle s j : occupant (barber_idle s) j = occupant s j.
Proof. done. Qed.

Lemma serving_take_chair c b s j : serving (take_chair c b s) j = serving s j.
Proof. done. Qed.
Lemma serving_clear_chair b s j : serving (clear_chair b s) j = serving s j.
Proof. done. Qed.
Lemma serving_drop_customer s j : serving (drop_customer s) j = serving s j.
Proof. done. Qed.
Lemma serving_move_waiting k s j : serving (move_waiting k s) j = serving s j.
Proof. done. Qed.
Lemma serving_mark_paid b v s j : serving (mark_paid b v s) j = serving s j.
Proof. done. Qed.
Lemma serving_barber_idle s j : serving (barber_idle s) j = serving s j.
Proof. done. Qed.

Create Rewrite HintDb slots.
#[local] Hint Rewrite occupant_drop_customer occupant_move_waiting
  occupant_mark_service occupant_mark_paid occupant_barber_idle
  serving_take_chair serving_clear_chair serving_drop_customer
  serving_move_waiting serving_mark_paid serving_barber_idle : slots.
#[local] Hint Rewrite occupant_take_chair occupant_clear_chair serving_insert
  using (cbn; rewrite ?length_insert; lia) : slots.

(** ** The documented call order keeps [service_ok] *)

Lemma first_empty_not_taken s b : first_empty s b → ¬ taken s b.
Proof. intros (_ & Hz & _) (c & Hc & Hnz). congruence. Qed.

Ltac slots := autorewrite with slots in *.

Lemma effect_taken p s o s' b0 :
  effect p s o s' → wf s → p ≠ ByeCustomer_woken b0 →
  taken s b0 → taken s' b0.
Proof.
  intros He Hwf Hp Ht. pose proof Hwf as [? ? ? ? ?]. unfold taken in *.
  destruct He; pc_cases; slots; try done.
  - match goal with H : first_empty _ _ |- _ =>
      pose proof (first_empty_not_taken _ _ H); destruct H as (? & ? & ?) end.
    slots. rewrite decide_False; [done|]. by intros ->.
  - match goal with H : first_empty _ _ |- _ =>
      pose proof (first_empty_not_taken _ _ H); destruct H as (? & ? & ?) end.
    slots. rewrite decide_False; [done|]. by intros ->.
  - rewrite decide_False; [done|]. by intros ->.
Qed.

Lemma effect_serving_false p s o s' b0 :
  effect p s o s' → wf s → taken s b0 →
  serving s b0 = Some false → serving s' b0 = Some false.
Proof.
  intros He Hwf Ht Hs. pose proof Hwf as [? ? ? ? ?].
  destruct He; pc_cases; slots; try done.
  - match goal with H : first_empty _ _ |- _ =>
      pose proof (first_empty_not_taken _ _ H); destruct H as (? & ? & ?) end.
    slots. rewrite decide_False; [done|]. by intros ->.
  - match goal with H : first_empty _ _ |- _ =>
      pose proof (first_empty_not_taken _ _ H); destruct H as (? & ? & ?) end.
    slots. rewrite decide_False; [done|]. by intros ->.
  - by destruct (decide _).
Qed.

Lemma effect_service_ok a p s o s' :
  effect p s o s' → wf s → pinv a s p → service_ok s → service_ok s'.
Proof.
  intros He Hwf Hp Hok j. pose proof Hwf as [? ? ? ? ?].
  specialize (Hok j). unfold taken in *.
  destruct He; pc_cases; cbn in Hp; slots; try done.
  - match goal with H : first_empty _ _ |- _ => destruct H as (? & ? & ?) end.
    slots. destruct (decide (j = barbID)); [eauto|done].
  - match goal with H : first_empty _ _ |- _ => destruct H as (? & ? & ?) end.
    slots. destruct (decide (j = barbID)); [eauto|done].
  - destruct (decide (j = barbID)); [done|done].
  - destruct Hp as (_ & Hfalse & _).
    destruct (decide (j = barbID)) as [->|]; [congruence|done].
Qed.

Lemma effect_tinv_self a p s o s' :
  effect p s o s' → wf s → pinv a s p →
  tinv s' (mkThread a (next a p o)).
Proof.
  intros He Hwf Hp. pose proof Hwf as [? ? ? ? ?].
  destruct He; pc_cases; cbn in Hp;
    try (match goal with H : first_empty _ _ |- _ =>
           pose proof (first_empty_nonneg _ _ H) as Hnn end);
    destruct a; cbn; rewrite ?Hnn; cbn; try done;
    try (by destruct Hp).
  - (* helloCustomer returns in a barber thread *)
    split; [done|]. by exists custID.
  - split; [done|]. by exists custID.
  - (* byeCustomer blocks *)
    destruct Hp as [_ Ht]. split; [done|]. slots.
    rewrite decide_True by done. done.
Qed.

Lemma effect_tinv_other p s o s' t :
  effect p s o s' → wf s → tinv s t →
  (∀ b, p = ByeCustomer_woken b → barber_of t ≠ Some b) →
  tinv s' t.
Proof.
  intros He Hwf Ht Hother.
  assert (Hbye : ∀ b0, role t = Barber → barber_of t = Some b0 →
                       taken s b0 → taken s' b0).
  { intros b0 Hr Hb. eapply effect_taken; [done..|].
    intros ->. by eapply Hother. }
  destruct t as [a' [p'|c' p'|p' r']]; [| |done];
    destruct p'; cbn in *; try done.
  - destruct Ht as [-> Ht]. split; [done|]. by apply Hbye.
  - destruct Ht as (-> & Hf & Ht). split; [done|]. split.
    + by eapply effect_serving_false.
    + by apply Hbye.
  - destruct Ht as [-> Ht]. split; [done|]. by apply Hbye.
  - destruct Ht as (-> & Hf & Ht). split; [done|]. split.
    + by eapply effect_serving_false.
    + by apply Hbye.
Qed.

Lemma effect_barber_of a p s o s' b :
  effect p s o s' →
  barber_of (mkThread a (next a p o)) = Some b →
  barber_of (mkThread a (Ready p)) = Some b.
Proof.
  intros He. destruct He; pc_cases;
    try (match goal with H : first_empty _ _ |- _ =>
           pose proof (first_empty_nonneg _ _ H) as Hnn end);
    destruct a; cbn; rewrite ?Hnn; cbn; done.
Qed.

Lemma one_thread_per_barber_insert ts i t t' :
  ts !! i = Some t →
  (∀ b, barber_of t' = Some b → barber_of t = Some b) →
  one_thread_per_barber ts →
  one_thread_per_barber (<[i := t']> ts).
Proof.
  intros Hi Hsame Hu j1 j2 t1 t2 b H1 H2 Hb1 Hb2.
  apply list_lookup_insert_Some in H1 as [(<- & <- & _)|[Hn1 H1]];
    apply list_lookup_insert_Some in H2 as [(<- & <- & _)|[Hn2 H2]];
    eauto.
Qed.

Lemma step_protocol m m' :
  step protocol m m' → protocol_inv m → protocol_inv m'.
Proof.
  intros Hs [Hwf Hok Hts Hu].
  pose proof (step_wf _ _ _ Hs Hwf) as Hwf'.
  destruct (step_inv _ _ _ Hs Hwf)
    as [(i & a & p & o & Ht & He & Hth)|[(i & a & c & k & Ht & Hsh & Hth)|(t & Hi & HP & Hsh & Hth)]].
  - pose proof (Hts _ _ Ht) as Hp. cbn in Hp.
    split; [done| | |].
    + by eapply effect_service_ok.
    + rewrite Hth. intros j t Hj.
      apply list_lookup_insert_Some in Hj as [(<- & <- & _)|[Hne Hj]].
      * by eapply effect_tinv_self.
      * eapply effect_tinv_other; [done..|by eapply Hts|].
        intros b -> Hb. destruct Hp as [-> _].
        apply Hne. by eapply (Hu i j _ _ b).
    + rewrite Hth. eapply one_thread_per_barber_insert; [done| |done].
      intros b. by eapply effect_barber_of.
  - split; [done|by rewrite Hsh| |].
    + rewrite Hth, Hsh. intros j t Hj.
      apply list_lookup_insert_Some in Hj as [(<- & <- & _)|[Hne Hj]].
      * by apply (Hts _ _ Ht).
      * by eapply Hts.
    + rewrite Hth. eapply one_thread_per_barber_insert; [done| |done].
      intros b. by destruct a.
  - split; [done|by rewrite Hsh| |].
    + rewrite Hth, Hsh. intros j t' Hj.
      apply lookup_app_Some in Hj as [Hj|[_ Hj]]; [by eapply Hts|].
      apply list_lookup_singleton_Some in Hj as [_ <-].
      destruct t as [[] [[]| |]]; cbn in *; done.
    + rewrite Hth. intros j1 j2 t1 t2 b H1 H2 Hb1 Hb2.
      assert (Hnew : ∀ t0, t0 ∈ threads m → barber_of t0 = Some b →
                           barber_of t = Some b → False).
      { intros t0 Hin Hb0 Hbt.
        destruct t as [[] [[]| |]]; cbn in *; try done.
        injection Hbt as ->. by eapply HP. }
      apply lookup_app_Some in H1 as [H1|[Hl1 H1]];
        apply lookup_app_Some in H2 as [H2|[Hl2 H2]].
      * by eapply Hu.
      * apply list_lookup_singleton_Some in H2 as [_ <-].
        exfalso. eapply Hnew; [by eapply list_elem_of_lookup_2|done..].
      * apply list_lookup_singleton_Some in H1 as [_ <-].
        exfalso. eapply Hnew; [by eapply list_elem_of_lookup_2|done..].
      * apply list_lookup_singleton_Some in H1 as [? _].
        apply list_lookup_singleton_Some in H2 as [? _]. lia.
Qed.

Lemma steps_protocol m m' :
  steps protocol m m' → protocol_inv m → protocol_inv m'.
Proof. induction 1; eauto using step_protocol. Qed.

Lemma fresh_waiting_inv nb nc :
  INT_MIN <= nc <= INT_MAX → waiting_inv (fresh nb nc).
Proof.
  intros Hc. split; [done|]. cbn. destruct (nc >=? 0) eqn:E; cbn.
  - lia.
  - unfold kDefaultNumChairs. lia.
Qed.

Lemma fresh_protocol_inv nb nc :
  INT_MIN <= nb <= INT_MAX → INT_MIN <= nc <= INT_MAX →
  protocol_inv (fresh nb nc).
Proof.
  intros Hb Hc. split; cbn.
  - by apply Shop_new_wf.
  - intros j Hj. apply serving_Some in Hj as [_ Hj]. cbn in Hj.
    unfold new_array in Hj. apply lookup_replicate in Hj as [[=] _].
  - intros j t [=].
  - intros i j ti tj b [=].
Qed.

(** C5, as stated, fails: visitShop(0) on a new Shop sets [in_service_[0]]
    and leaves chair 0 empty. *)
Lemma C5_counterexample :
  ¬ (∀ nb nc m, steps anyone (fresh nb nc) m →
                waiting_ok (shop m) ∧ service_ok (shop m)).
Proof.
  intros H.
  destruct (schedule [Spawn (mkThread Caller (Ready (VisitShop 0))); Run 0%nat]
              (fresh 1 3)) as [m|] eqn:Hm; [|vm_compute in Hm; discriminate].
  destruct (H 1 3 m) as [_ Hok].
  { eapply schedule_steps; [exact Hm|]. done. }
  vm_compute in Hm. injection Hm as <-.
  destruct (Hok 0) as (c & Hc & Hnz); [reflexivity|].
  vm_compute in Hc. congruence.
Qed.

(** The second proviso of C5 is needed as well: byeCustomer called out of
    order, with customer 1, clears a chair that is in service. *)
Lemma byeCustomer_out_of_order :
  ∃ m, steps anyone (fresh 1 3) m ∧
       serving (shop m) 0 = Some true ∧ occupant (shop m) 0 = Some 0.
Proof.
  destruct (schedule [Spawn (mkThread Caller (Ready (ByeCustomer 0))); Run 0%nat;
                      Spawn (mkThread Caller (Ready (VisitShop 1))); Run 1%nat;
                      Wake 0%nat; Run 0%nat]
              (fresh 1 3)) as [m|] eqn:Hm; [|vm_compute in Hm; discriminate].
  exists m. split; [eapply schedule_steps; [exact Hm|done]|].
  vm_compute in Hm. injection Hm as <-. split; reflexivity.
Qed.

(** C5, amended: from a new Shop, [0 <= waiting_customers_ <=
    max_waiting_cust_] holds after any sequence of calls; and
    [in_service_[i]] is true only if chair [i] holds a customer after any
    sequence of calls that keeps the documented order (no customer is numbered
    0, byeCustomer is called by the barber's own thread after its
    helloCustomer, one thread per barber).  Every step keeps both. *)
Theorem C5_capacity_and_service (nb nc : Z) (m : machine) :
  INT_MIN <= nb <= INT_MAX → INT_MIN <= nc <= INT_MAX →
  (∀ P, steps P (fresh nb nc) m → waiting_ok (shop m)) ∧
  (steps protocol (fresh nb nc) m →
   service_ok (shop m) ∧
   ∀ m', step protocol m m' → waiting_ok (shop m') ∧ service_ok (shop m')).
Proof.
  intros Hb Hc.
  assert (Hw : ∀ P m1, steps P (fresh nb nc) m1 → waiting_inv m1 ∧ wf (shop m1)).
  { intros P m1 Hs. split.
    - eapply steps_waiting; [done|by apply Shop_new_wf|by apply fresh_waiting_inv].
    - eapply steps_wf; [done|by apply Shop_new_wf]. }
  split.
  - intros P Hs. apply waiting_inv_ok. by apply (Hw P).
  - intros Hs.
    pose proof (steps_protocol _ _ Hs (fresh_protocol_inv _ _ Hb Hc)) as Hinv.
    split; [by destruct Hinv|].
    intros m' Hstep. split.
    + apply waiting_inv_ok. apply (Hw protocol). by eapply rtc_r.
    + by destruct (step_protocol _ _ Hstep Hinv).
Qed.

Lemma steps_cons P a m m1 m' :
  exec a m = Some m1 →
  (∀ t, a = Spawn t → P m t) →
  steps P m1 m' → steps P m m'.
Proof. intros He HP Hs. eapply rtc_l; [by eapply exec_step|done]. Qed.

Ltac act a :=
  eapply (steps_cons _ a);
  [vm_compute; reflexivity
  |intros ? [=]; subst; cbn; try done; by inversion 1
  |].

(** One barber, one waiting chair, two customers: customer 2 waits for the
    chair of customer 1 and gets it. *)
Lemma C5_capacity_and_service_witness :
  ∃ m, steps protocol (fresh 1 1) m ∧
       waiting_ok (shop m) ∧ service_ok (shop m) ∧
       occupant (shop m) 0 = Some 2 ∧ serving (shop m) 0 = Some true.
Proof.
  assert (∃ m, steps protocol (fresh 1 1) m ∧
               occupant (shop m) 0 = Some 2 ∧ serving (shop m) 0 = Some true)
    as (m & Hs & Ho & Hv).
  { eexists. split.
    - act (Spawn (mkThread Barber (Ready (HelloCustomer 0)))).
      act (Spawn (mkThread Customer (Ready (VisitShop 1)))).
      act (Spawn (mkThread Customer (Ready (VisitShop 2)))).
      act (Run 1). (* customer 1 sits down *)
      act (Run 2). (* customer 2 takes the waiting chair *)
      act (Run 0). (* helloCustomer *)
      act (Run 0). (* byeCustomer, up to its wait *)
      act (Run 1). (* customer 1 pays *)
      act (Wake 0). act (Run 0). (* the barber clears the chair *)
      act (Wake 2). act (Run 2). (* customer 2 sits down *)
      apply rtc_refl.
    - split; reflexivity. }
  exists m.
  destruct (C5_capacity_and_service 1 1 m) as [Hw Hp];
    [unfold INT_MIN, INT_MAX; lia..|].
  destruct (Hp Hs) as [Hok _].
  split; [done|]. split; [by apply (Hw protocol)|].
  split; [exact Hok|done].
Defined.

(** * byeCustomer and the payment *)

(** The order inside byeCustomer: up to the wait it clears
    [in_service_[barbID]], resets [money_paid_[barbID]] and signals
    [cond_customer_served_[barbID]]; after the wait it empties the chair and
    signals [cond_customers_waiting_]. *)
Lemma byeCustomer_order (barbID : Z) (s : Shop) :
  wf s → room s → 0 <= barbID < max_working_barb_ s →
  (∃ s1 line,
     run (ByeCustomer barbID) s =
       Some (Block (cond_barber_paid_ barbID) (ByeCustomer_woken barbID), s1,
             [StoreService barbID false; Out line; StorePaid barbID false;
              Signal (cond_customer_served_ barbID)])) ∧
  (∃ s2 line,
     run (ByeCustomer_woken barbID) s =
       Some (Return None, s2,
             [StoreChair barbID 0; Out line; Signal cond_customers_waiting_])).
Proof.
  intros Hwf [? ? ?] Hb. pose proof Hwf as [? ? ? ? ?]. split.
  - destruct (lookup_lt_is_Some_2 (customer_in_chair_ s) (Z.to_nat barbID))
      as [v Hv]; [lia|].
    unfold run. cbn [section].
    unfold byeCustomer_entry, store_service, store_paid. mrun.
    unfold pthread_cond_wait. cbn.
    assert ((0 <=? barbID) && (barbID <? max_working_barb_ s) = true) as ->
      by (rewrite andb_true_iff, Z.leb_le, Z.ltb_lt; lia).
    eexists _, _. reflexivity.
  - unfold run. cbn [section]. unfold byeCustomer_woken, store_chair. mrun.
    eexists _, _. reflexivity.
Qed.

(** C6: the wait of byeCustomer is not in a loop and [money_paid_] is never
    read, so a wait that returns without a signal lets the barber empty the
    chair before the customer has paid.  In the driver's run below (one
    barber, one customer) the barber's wait returns while customer 1 has not
    yet entered leaveShop: chair 0 is emptied, [money_paid_[0]] is false and
    [cond_barber_paid_[0]] was never signalled. *)
Theorem C6_chair_cleared_before_payment :
  ∃ m0 m,
    main 1 3 1 1 = Some m0 ∧
    steps nobody m0 m ∧
    threads m !! 1%nat = Some (mkThread Customer (Ready (LeaveShop 1 0))) ∧
    occupant (shop m) 0 = Some 0 ∧
    paid (shop m) 0 = Some false ∧
    StoreChair 0 0 ∈ trace m ∧
    Signal (cond_barber_paid_ 0) ∉ trace m.
Proof.
  eexists _, _. split; [reflexivity|]. split.
  - eapply (schedule_steps_nobody [Run 1; Run 0; Run 0; Wake 0; Run 0]);
      [reflexivity|]. vm_compute. reflexivity.
  - cbn [threads shop trace]. split; [reflexivity|]. split; [reflexivity|].
    split; [reflexivity|]. split.
    + repeat first [by left | right].
    + rewrite list_elem_of_In. cbn. intuition discriminate.
Qed.

(** * Customer 0 *)

Lemma empty_not_all_occupied s b : occupant s b = Some 0 → ¬ all_occupied s.
Proof.
  intros Hz Hall. apply occupant_Some in Hz as [_ Hz].
  unfold all_occupied in Hall. rewrite Forall_lookup in Hall.
  by apply (Hall _ _ Hz).
Qed.

(** C10: a chair is empty when it holds 0.  After assignBarber has given a
    chair to a customer whose identifier is not 0, the next assignBarber
    neither returns that chair nor changes its occupant; after it has given
    a chair to customer 0, the chair still holds 0 and the next assignBarber
    returns the same chair and puts its own customer in it. *)
Theorem C10_zero_id_marks_empty (c1 c2 b : Z) (s s1 : Shop) (l1 : list event) :
  wf s → INT_MIN + 1 < sleeping_barbs_ s <= INT_MAX →
  assignBarber c1 s [] = Some (b, s1, l1) → b ≠ -1 →
  ∃ b2 s2 l2,
    assignBarber c2 s1 [] = Some (b2, s2, l2) ∧
    (c1 ≠ 0 → b2 ≠ b ∧ occupant s1 b = Some c1 ∧ occupant s2 b = Some c1) ∧
    (c1 = 0 → b2 = b ∧ occupant s1 b = Some 0 ∧ occupant s2 b = Some c2).
Proof.
  intros Hwf Hsb H1 Hb. pose proof Hwf as [? ? ? ? ?].
  apply (assignBarber_Some _ _ _ _ _ _ Hwf) in H1
    as [(-> & _)|(Hr & Hz & Hocc & Hi & -> & ->)]; [done|].
  pose proof (take_chair_wf c1 b s Hwf) as Hwf1.
  destruct (assignBarber_defined c2 (take_chair c1 b s) [] Hwf1)
    as [[[b2 s2] l2] H2]; [cbn; unfold INT_MIN, INT_MAX in *; lia|].
  exists b2, s2, l2. split; [done|].
  assert (Hb1 : occupant (take_chair c1 b s) b = Some c1).
  { slots. by rewrite decide_True. }
  apply (assignBarber_Some _ _ _ _ _ _ Hwf1) in H2
    as [(-> & -> & -> & Hall)|(Hr2 & Hz2 & Hocc2 & _ & -> & ->)].
  - split.
    + intros Hc1. split; [lia|done].
    + intros ->. exfalso. by eapply empty_not_all_occupied.
  - cbn in Hr2. split.
    + intros Hc1. assert (b2 ≠ b) by (intros ->; congruence).
      split; [done|]. split; [done|].
      rewrite occupant_take_chair by (cbn; rewrite length_insert; lia).
      by rewrite decide_False.
    + intros ->.
      assert (b2 = b) as ->.
      { apply (first_empty_unique (take_chair 0 b s)); [done|].
        split; [done|]. split; [done|]. intros j Hj.
        destruct (Hocc j Hj) as (c & Hc & Hnz). exists c. split; [|done].
        slots. rewrite decide_False by lia. done. }
      split; [done|]. split; [done|].
      rewrite occupant_take_chair by (cbn; rewrite length_insert; lia).
      by rewrite decide_True.
Qed.

Lemma C10_zero_id_marks_empty_witness :
  (∃ s2 l2, assignBarber 5 (take_chair 0 0 (Shop_new 1 0)) [] = Some (0, s2, l2) ∧
            occupant s2 0 = Some 5) ∧
  (∃ s2 l2, assignBarber 5 (take_chair 3 0 (Shop_new 1 0)) [] = Some (-1, s2, l2) ∧
            occupant s2 0 = Some 3).
Proof.
  split.
  - destruct (C10_zero_id_marks_empty 0 5 0 (Shop_new 1 0)
                (take_chair 0 0 (Shop_new 1 0)) [StoreChair 0 0])
      as (b2 & s2 & l2 & H & _ & Hz).
    + apply Shop_new_wf; unfold INT_MIN, INT_MAX; lia.
    + cbn. unfold INT_MIN, INT_MAX. lia.
    + reflexivity.
    + lia.
    + destruct (Hz eq_refl) as (-> & _ & Ho). by exists s2, l2.
  - destruct (C10_zero_id_marks_empty 3 5 0 (Shop_new 1 0)
                (take_chair 3 0 (Shop_new 1 0)) [StoreChair 0 3])
      as (b2 & s2 & l2 & H & Hnz & _).
    + apply Shop_new_wf; unfold INT_MIN, INT_MAX; lia.
    + cbn. unfold INT_MIN, INT_MAX. lia.
    + reflexivity.
    + lia.
    + destruct Hnz as (_ & _ & Ho); [lia|].
      vm_compute in H. injection H as <- <- <-. eexists _, _.
      split; reflexivity.
Defined.

(** On the whole monitor: in a Shop with one chair, visitShop(0) and then
    visitShop(5) both return chair 0. *)
Lemma visitShop_zero_id_same_chair :
  ∃ m, steps anyone (fresh 1 0) m ∧
       threads m = [mkThread Caller (Done (VisitShop 0) (Some 0));
                    mkThread Caller (Done (VisitShop 5) (Some 0))].
Proof.
  eexists. split.
  - act (Spawn (mkThread Caller (Ready (VisitShop 0)))). act (Run 0).
    act (Spawn (mkThread Caller (Ready (VisitShop 5)))). act (Run 1).
    apply rtc_refl.
  - reflexivity.
Qed.

(** * More on the sections *)

(** The paths of [effect] exclude one another. *)
Lemma effect_det p s o1 s1 o2 s2 :
  effect p s o1 s1 → effect p s o2 s2 → o1 = o2 ∧ s1 = s2.
Proof.
  intros H1 H2. destruct H1; inv_effect H2; try done; try congruence;
    try (exfalso; eapply first_empty_not_all_occupied; eauto; fail);
    try (exfalso; lia);
    try (match goal with
         | Ha : first_empty ?s ?b1, Hb : first_empty ?s ?b2 |- _ =>
             pose proof (first_empty_unique _ _ _ Ha Hb); subst; done
         end).
Qed.

(** Every path of [effect] is a run of the code. *)
Lemma effect_run p s o s' :
  wf s → room s → pc_ok p s → effect p s o s' →
  ∃ log, run p s = Some (o, s', log).
Proof.
  intros Hwf Hroom Hp He.
  destruct (run_total p s Hwf Hroom Hp) as (o2 & s2 & log & Hrun & He2).
  destruct (effect_det _ _ _ _ _ _ He He2) as [-> ->]. by exists log.
Qed.

(** X1: the constructor and init leave a well-formed Shop with every counter
    at 0 and, for each barber of the shop, an empty chair that is neither in
    service nor paid; there is no slot outside [0, max_working_barb_). *)
Theorem X1_new_shop_is_empty (num_barbers num_chairs j : Z) :
  INT_MIN <= num_barbers <= INT_MAX → INT_MIN <= num_chairs <= INT_MAX →
  wf (Shop_new num_barbers num_chairs) ∧
  waiting_customers_ (Shop_new num_barbers num_chairs) = 0 ∧
  sleeping_barbs_ (Shop_new num_barbers num_chairs) = 0 ∧
  cust_drops_ (Shop_new num_barbers num_chairs) = 0 ∧
  (0 <= j < max_working_barb_ (Shop_new num_barbers num_chairs) →
   occupant (Shop_new num_barbers num_chairs) j = Some 0 ∧
   serving (Shop_new num_barbers num_chairs) j = Some false ∧
   paid (Shop_new num_barbers num_chairs) j = Some false) ∧
  (¬ 0 <= j < max_working_barb_ (Shop_new num_barbers num_chairs) →
   occupant (Shop_new num_barbers num_chairs) j = None ∧
   serving (Shop_new num_barbers num_chairs) j = None ∧
   paid (Shop_new num_barbers num_chairs) j = None).
Proof.
  intros Hb Hc. split; [by apply Shop_new_wf|].
  repeat (split; [reflexivity|]).
  unfold occupant, serving, paid, Shop_new, new_array. cbn.
  set (n := if num_barbers >? 0 then num_barbers else kDefaultBarbers).
  split.
  - intros Hj. destruct (0 <=? j) eqn:E; [|lia].
    repeat split; apply lookup_replicate; (split; [done|lia]).
  - intros Hj. destruct (0 <=? j) eqn:E; [|done].
    apply Z.leb_le in E.
    repeat split; apply lookup_replicate_None; lia.
Qed.

Lemma X1_new_shop_is_empty_witness :
  occupant (Shop_new 2 1) 1 = Some 0 ∧ occupant (Shop_new 2 1) 2 = None.
Proof.
  destruct (X1_new_shop_is_empty 2 1 1) as (_ & _ & _ & _ & Hin & _);
    [unfold INT_MIN, INT_MAX; lia..|].
  destruct (X1_new_shop_is_empty 2 1 2) as (_ & _ & _ & _ & _ & Hout);
    [unfold INT_MIN, INT_MAX; lia..|].
  split.
  - apply Hin. cbn. lia.
  - apply Hout. cbn. lia.
Defined.

(** X2: the constructor with arguments, given a number of barbers that is not
    positive and a negative number of chairs, builds the same Shop as the
    constructor without arguments. *)
Theorem X2_invalid_arguments_give_default (num_barbers num_chairs : Z) :
  num_barbers <= 0 → num_chairs < 0 →
  Shop_new num_barbers num_chairs = Shop_default.
Proof.
  intros Hb Hc. unfold Shop_new, Shop_default.
  destruct (num_chairs >=? 0) eqn:E1; [lia|].
  destruct (num_barbers >? 0) eqn:E2; [lia|]. reflexivity.
Qed.

Lemma X2_invalid_arguments_give_default_witness :
  Shop_new 0 (-1) = Shop_default ∧ Shop_new (-7) (-3) = Shop_default.
Proof.
  split; apply X2_invalid_arguments_give_default; lia.
Defined.

Lemma visitShop_seated_log custID barbID s l o s' l' :
  visitShop_seated custID barbID s l = Some (o, s', l') →
  ∃ line, l' = l ++ [Out line; StoreService barbID true;
                     Signal (cond_barber_sleeping_ barbID)].
Proof.
  unfold visitShop_seated, store_service. intros H. minv.
  eexists. rewrite <- !app_assoc. reflexivity.
Qed.

(** A call of visitShop that returns a chair ends with the signal to the
    barber of that chair. *)
Lemma run_visit_signal p s b s' log :
  wf s → is_visit p = true →
  run p s = Some (Return (Some b), s', log) → b ≠ -1 →
  last log = Some (Signal (cond_barber_sleeping_ b)).
Proof.
  intros Hwf Hv H Hb. unfold run in H.
  assert (Hseat : ∀ c r s0 l0,
             visitShop_seated c r s0 l0 = Some (Return (Some b), s', log) →
             last log = Some (Signal (cond_barber_sleeping_ b))).
  { intros c r s0 l0 Hs.
    pose proof (visitShop_seated_Some _ _ _ _ _ _ _ Hs) as [[= ->] _].
    apply visitShop_seated_log in Hs as [line ->].
    rewrite last_app. reflexivity. }
  destruct p as [c|c| | | | | | |]; try discriminate; cbn [section] in H.
  - unfold visitShop_entry, record_drop, waiting_add in H.
    apply bind_Some in H as (mw & s1 & l1 & Hg & H).
    apply gets_Some in Hg as [= -> -> ->].
    destruct (max_waiting_cust_ s =? 0).
    + apply bind_Some in H as (r & s1 & l1 & Ha & H).
      destruct (r =? -1) eqn:Hr; [|by eapply Hseat].
      apply Z.eqb_eq in Hr as ->. minv; try done.
    + apply bind_Some in H as (wc & s1 & l1 & Hg & H).
      apply gets_Some in Hg as [= -> -> ->].
      destruct (max_waiting_cust_ s =? waiting_customers_ s); [minv; try done|].
      apply bind_Some in H as (r & s1 & l1 & Ha & H).
      destruct (r =? -1) eqn:Hr; [|by eapply Hseat].
      minv; try done.
  - unfold visitShop_woken, record_drop, waiting_add in H.
    apply bind_Some in H as (r & s1 & l1 & Ha & H).
    destruct (r =? -1) eqn:Hr.
    + apply Z.eqb_eq in Hr as ->. minv; try done.
    + apply bind_Some in H as ([] & s2 & l2 & Hw & H). by eapply Hseat.
Qed.

(** X3: when a service chair is free and the waiting chairs are not all
    taken, visitShop returns at once the lowest-numbered free chair, with the
    customer in it and [in_service_] set for it; it touches no other slot,
    no waiting chair and no drop, takes one from [sleeping_barbs_], and its
    last action is the signal on that barber's [cond_barber_sleeping_]. *)
Theorem X3_visitShop_takes_first_empty_chair (custID : Z) (s : Shop) :
  wf s → room s → INT_MIN < custID →
  max_waiting_cust_ s = 0 ∨ max_waiting_cust_ s ≠ waiting_customers_ s →
  ¬ all_occupied s →
  ∃ b s' log,
    run (VisitShop custID) s = Some (Return (Some b), s', log) ∧
    first_empty s b ∧
    occupant s' b = Some custID ∧ serving s' b = Some true ∧
    (∀ j, j ≠ b → occupant s' j = occupant s j ∧ serving s' j = serving s j) ∧
    money_paid_ s' = money_paid_ s ∧
    waiting_customers_ s' = waiting_customers_ s ∧
    cust_drops_ s' = cust_drops_ s ∧
    sleeping_barbs_ s' = sleeping_barbs_ s - 1 ∧
    last log = Some (Signal (cond_barber_sleeping_ b)).
Proof.
  intros Hwf Hroom Hc Hfree Hnot. pose proof Hwf as [? ? ? ? ?].
  destruct (run_total (VisitShop custID) s Hwf Hroom Hc)
    as (o & s' & log & Hrun & He).
  inv_effect He; try done; try (exfalso; lia).
  match goal with H : first_empty _ ?b |- _ =>
    rename b into r; pose proof H as (Hr & Hz & Ho) end.
  eexists r, _, log. split; [done|]. split; [done|].
  split; [slots; by rewrite decide_True|].
  split; [slots; by rewrite decide_True|].
  split.
  { intros j Hj. slots. by rewrite !decide_False. }
  repeat (split; [reflexivity|]).
  eapply (run_visit_signal (VisitShop custID)); [done|reflexivity|done|lia].
Qed.

Lemma X3_visitShop_takes_first_empty_chair_witness :
  ∃ s' log,
    run (VisitShop 9) (mark_service 0 true (take_chair 4 0 (Shop_new 2 1))) =
      Some (Return (Some 1), s', log) ∧
    occupant s' 0 = Some 4 ∧ occupant s' 1 = Some 9.
Proof.
  destruct (X3_visitShop_takes_first_empty_chair 9
              (mark_service 0 true (take_chair 4 0 (Shop_new 2 1))))
    as (b & s' & log & H & _ & Hb & _ & Hrest & _).
  - apply mark_service_wf, take_chair_wf, Shop_new_wf;
      unfold INT_MIN, INT_MAX; lia.
  - split; cbn; unfold INT_MIN, INT_MAX; lia.
  - unfold INT_MIN. lia.
  - right. cbn. lia.
  - intros Hall. unfold all_occupied in Hall. cbn in Hall.
    apply Forall_cons in Hall as [_ Hall]. apply Forall_cons in Hall as [Hz _].
    done.
  - assert (b = 1) as ->.
    { vm_compute in H. by injection H as -> _ _. }
    exists s', log. split; [exact H|]. split; [|exact Hb].
    destruct (Hrest 0) as [-> _]; [lia|]. reflexivity.
Defined.

(** X4: a chair that holds a customer keeps that customer through every
    section of every method, except the section of byeCustomer after its wait
    for that same chair, which empties it: no customer is ever overwritten or
    removed by visitShop, leaveShop or helloCustomer. *)
Theorem X4_occupied_chair_is_kept (p : pc) (s s' : Shop) (o : outcome)
    (log : list event) (b c : Z) :
  wf s → run p s = Some (o, s', log) →
  occupant s b = Some c → c ≠ 0 →
  (p ≠ ByeCustomer_woken b → occupant s' b = Some c) ∧
  (p = ByeCustomer_woken b → occupant s' b = Some 0).
Proof.
  intros Hwf Hrun Hc Hnz. pose proof Hwf as [? ? ? ? ?].
  apply run_effect in Hrun; [|done].
  assert (Htaken : taken s b) by by exists c.
  split.
  - intros Hp. destruct Hrun; pc_cases; slots; try done.
    + match goal with H : first_empty _ _ |- _ =>
        pose proof (first_empty_not_taken _ _ H); destruct H as (? & ? & ?) end.
      slots. rewrite decide_False; [done|]. by intros ->.
    + match goal with H : first_empty _ _ |- _ =>
        pose proof (first_empty_not_taken _ _ H); destruct H as (? & ? & ?) end.
      slots. rewrite decide_False; [done|]. by intros ->.
    + rewrite decide_False; [done|]. by intros ->.
  - intros ->. inv_effect Hrun. slots. by rewrite decide_True.
Qed.

Lemma X4_occupied_chair_is_kept_witness :
  ∃ s' log,
    run (VisitShop 9) (mark_service 0 true (take_chair 4 0 (Shop_new 2 1))) =
      Some (Return (Some 1), s', log) ∧
    occupant s' 0 = Some 4.
Proof.
  destruct (run (VisitShop 9) (mark_service 0 true (take_chair 4 0 (Shop_new 2 1))))
    as [[[o s'] log]|] eqn:Hrun; [|vm_compute in Hrun; discriminate].
  assert (Hwf : wf (mark_service 0 true (take_chair 4 0 (Shop_new 2 1))))
    by (apply mark_service_wf, take_chair_wf, Shop_new_wf;
        unfold INT_MIN, INT_MAX; lia).
  destruct (X4_occupied_chair_is_kept _ _ _ _ _ 0 4 Hwf Hrun)
    as [Hkeep _]; [reflexivity|lia|].
  assert (o = Return (Some 1)) as ->.
  { vm_compute in Hrun. by injection Hrun as <- _ _. }
  exists s', log. split; [reflexivity|]. by apply Hkeep.
Defined.

(** X5: helloCustomer returns exactly when the barber's chair holds a
    customer, and then it has changed nothing; otherwise it blocks on the
    barber's [cond_barber_sleeping_], from its entry as well as after each
    wake-up, and the only thing it may have changed is [sleeping_barbs_],
    which it raises by one when called with no customer on a waiting chair. *)
Theorem X5_helloCustomer_waits_for_a_customer (p : pc) (barbID : Z) (s : Shop) :
  wf s → room s → 0 <= barbID < max_working_barb_ s → hello_pc p barbID →
  ∃ o s' log,
    run p s = Some (o, s', log) ∧
    ((taken s barbID ∧ o = Return None ∧ s' = s) ∨
     (occupant s barbID = Some 0 ∧
      o = Block (cond_barber_sleeping_ barbID) (HelloCustomer_loop barbID) ∧
      (p = HelloCustomer barbID ∧ waiting_customers_ s = 0 →
       s' = barber_idle s) ∧
      (p = HelloCustomer_loop barbID ∨ waiting_customers_ s ≠ 0 → s' = s))).
Proof.
  intros Hwf Hroom Hb Hp.
  assert (Hok : pc_ok p s) by (destruct Hp as [-> | ->]; done).
  destruct (run_total p s Hwf Hroom Hok) as (o & s' & log & Hrun & He).
  exists o, s', log. split; [done|].
  destruct Hp as [-> | ->]; inv_effect He.
  - right. repeat split; try done. intros [[=]|?]; done.
  - right. repeat split; try done. intros [_ ?]; done.
  - left. split; [by eexists|done].
  - right. repeat split; try done. intros [[=] _].
  - left. split; [by eexists|done].
Qed.

Lemma X5_helloCustomer_waits_for_a_customer_witness :
  (∃ s' log, run (HelloCustomer 0) (Shop_new 1 3) =
             Some (Block (cond_barber_sleeping_ 0) (HelloCustomer_loop 0), s', log) ∧
             sleeping_barbs_ s' = 1) ∧
  (∃ log, run (HelloCustomer 0) (take_chair 4 0 (Shop_new 1 3)) =
          Some (Return None, take_chair 4 0 (Shop_new 1 3), log)).
Proof.
  split.
  - destruct (X5_helloCustomer_waits_for_a_customer (HelloCustomer 0) 0
                (Shop_new 1 3))
      as (o & s' & log & H & [(Ht & _)|(_ & -> & Hs & _)]).
    + apply Shop_new_wf; unfold INT_MIN, INT_MAX; lia.
    + apply Shop_new_room; unfold INT_MIN, INT_MAX; lia.
    + cbn. lia.
    + by left.
    + destruct Ht as (c & [= <-] & Hnz). done.
    + exists s', log. split; [exact H|]. rewrite Hs; [reflexivity|done].
  - destruct (X5_helloCustomer_waits_for_a_customer (HelloCustomer 0) 0
                (take_chair 4 0 (Shop_new 1 3)))
      as (o & s' & log & H & [(_ & -> & ->)|(Hz & _)]).
    + apply take_chair_wf, Shop_new_wf; unfold INT_MIN, INT_MAX; lia.
    + split; cbn; unfold INT_MIN, INT_MAX; lia.
    + cbn. lia.
    + by left.
    + by exists log.
    + discriminate Hz.
Defined.

(** X6: byeCustomer blocks on [cond_barber_paid_] whatever the Shop holds,
    having cleared [in_service_] and [money_paid_] for its slot and nothing
    else; the section after the wait empties its chair and adds one to
    [sleeping_barbs_] whatever [money_paid_] holds, and changes nothing
    else. *)
Theorem X6_byeCustomer_frame (barbID : Z) (s : Shop) :
  wf s → room s → 0 <= barbID < max_working_barb_ s →
  (∃ s1 log,
     run (ByeCustomer barbID) s =
       Some (Block (cond_barber_paid_ barbID) (ByeCustomer_woken barbID), s1, log) ∧
     serving s1 barbID = Some false ∧ paid s1 barbID = Some false ∧
     (∀ j, j ≠ barbID → serving s1 j = serving s j ∧ paid s1 j = paid s j) ∧
     customer_in_chair_ s1 = customer_in_chair_ s ∧
     waiting_customers_ s1 = waiting_customers_ s ∧
     sleeping_barbs_ s1 = sleeping_barbs_ s ∧
     cust_drops_ s1 = cust_drops_ s) ∧
  (∃ s2 log,
     run (ByeCustomer_woken barbID) s = Some (Return None, s2, log) ∧
     occupant s2 barbID = Some 0 ∧
     (∀ j, j ≠ barbID → occupant s2 j = occupant s j) ∧
     in_service_ s2 = in_service_ s ∧ money_paid_ s2 = money_paid_ s ∧
     waiting_customers_ s2 = waiting_customers_ s ∧
     sleeping_barbs_ s2 = sleeping_barbs_ s + 1 ∧
     cust_drops_ s2 = cust_drops_ s).
Proof.
  intros Hwf Hroom Hb. pose proof Hwf as [? ? ? ? ?]. split.
  - destruct (run_total (ByeCustomer barbID) s Hwf Hroom Hb)
      as (o & s1 & log & Hrun & He).
    inv_effect He. eexists _, log. split; [done|].
    split; [slots; by rewrite decide_True|].
    split; [rewrite paid_insert by (cbn; rewrite ?length_insert; lia);
            by rewrite decide_True|].
    split; [|done].
    intros j Hj. split.
    + slots. by rewrite decide_False.
    + rewrite paid_insert by (cbn; rewrite ?length_insert; lia).
      by rewrite decide_False.
  - destruct (run_total (ByeCustomer_woken barbID) s Hwf Hroom Hb)
      as (o & s2 & log & Hrun & He).
    inv_effect He. eexists _, log. split; [done|].
    split; [slots; by rewrite decide_True|].
    split; [|done].
    intros j Hj. slots. by rewrite decide_False.
Qed.

Lemma X6_byeCustomer_frame_witness :
  ∃ s2 log,
    run (ByeCustomer_woken 0) (take_chair 4 0 (Shop_new 1 3)) =
      Some (Return None, s2, log) ∧
    occupant s2 0 = Some 0 ∧ paid s2 0 = Some false.
Proof.
  destruct (X6_byeCustomer_frame 0 (take_chair 4 0 (Shop_new 1 3)))
    as [_ (s2 & log & H & Ho & _ & _ & Hp & _)].
  - apply take_chair_wf, Shop_new_wf; unfold INT_MIN, INT_MAX; lia.
  - split; cbn; unfold INT_MIN, INT_MAX; lia.
  - cbn. lia.
  - exists s2, log. split; [exact H|]. split; [exact Ho|].
    unfold paid. rewrite Hp. reflexivity.
Defined.

(** Every path of [effect] is taken whatever [money_paid_] holds. *)
Lemma effect_ignores_paid p s o s' v :
  effect p s o s' → length v = length (money_paid_ s) →
  ∃ v', effect p (set_money_paid_ v s) o (set_money_paid_ v' s').
Proof.
  intros He Hlen. destruct He.
  - exists v. by apply (visit_no_chair custID (set_money_paid_ v s)).
  - exists v. by apply (visit_no_seat custID (set_money_paid_ v s)).
  - exists v. by apply (visit_seated custID (set_money_paid_ v s)).
  - exists v. by apply (visit_waits custID (set_money_paid_ v s)).
  - exists v. by apply (woken_no_chair custID (set_money_paid_ v s)).
  - exists v. by apply (woken_seated custID (set_money_paid_ v s)).
  - exists v. by apply (leave_waits p custID barbID (set_money_paid_ v s)).
  - exists (<[Z.to_nat barbID := true]> v).
    apply (leave_pays p custID barbID (set_money_paid_ v s)); [done..|].
    cbn. lia.
  - exists v. by apply (hello_sleeps barbID (set_money_paid_ v s)).
  - exists v. by apply (hello_waits barbID (set_money_paid_ v s)).
  - exists v. by apply (hello_waits_again barbID (set_money_paid_ v s)).
  - exists v. by apply (hello_starts p barbID custID (set_money_paid_ v s)).
  - exists (<[Z.to_nat barbID := false]> v).
    apply (bye_done barbID (set_money_paid_ v s)); [done|]. cbn. lia.
  - exists v. by apply (bye_clears barbID (set_money_paid_ v s)).
  - exists v. apply (drops_read (set_money_paid_ v s)).
Qed.

(** X7: [money_paid_] is written but never read: with any other contents in
    that array, every section of every method ends in the same way (the same
    wait or the same return value) and leaves the same chairs, the same
    [in_service_] and the same counters. *)
Theorem X7_money_paid_is_never_read (p : pc) (s : Shop) (v : list bool) :
  wf s → room s → pc_ok p s → length v = length (money_paid_ s) →
  ∃ o s1 log1 s2 log2,
    run p s = Some (o, s1, log1) ∧
    run p (set_money_paid_ v s) = Some (o, s2, log2) ∧
    customer_in_chair_ s2 = customer_in_chair_ s1 ∧
    in_service_ s2 = in_service_ s1 ∧
    waiting_customers_ s2 = waiting_customers_ s1 ∧
    sleeping_barbs_ s2 = sleeping_barbs_ s1 ∧
    cust_drops_ s2 = cust_drops_ s1.
Proof.
  intros Hwf Hroom Hp Hlen.
  destruct (run_total p s Hwf Hroom Hp) as (o & s1 & log1 & Hrun & He).
  destruct (effect_ignores_paid _ _ _ _ v He Hlen) as [v' He'].
  assert (Hwf' : wf (set_money_paid_ v s)).
  { destruct Hwf. split; cbn; try done. lia. }
  assert (Hroom' : room (set_money_paid_ v s)) by (by destruct Hroom).
  assert (Hp' : pc_ok p (set_money_paid_ v s)) by (by destruct p).
  destruct (effect_run _ _ _ _ Hwf' Hroom' Hp' He') as [log2 Hrun'].
  exists o, s1, log1, (set_money_paid_ v' s1), log2. done.
Qed.

Lemma X7_money_paid_is_never_read_witness :
  ∃ s1 log1 s2 log2,
    run (ByeCustomer_woken 0) (take_chair 4 0 (Shop_new 1 3)) =
      Some (Return None, s1, log1) ∧
    run (ByeCustomer_woken 0)
        (set_money_paid_ [true] (take_chair 4 0 (Shop_new 1 3))) =
      Some (Return None, s2, log2) ∧
    customer_in_chair_ s2 = customer_in_chair_ s1.
Proof.
  destruct (X7_money_paid_is_never_read (ByeCustomer_woken 0)
              (take_chair 4 0 (Shop_new 1 3)) [true])
    as (o & s1 & log1 & s2 & log2 & H1 & H2 & Hc & _).
  - apply take_chair_wf, Shop_new_wf; unfold INT_MIN, INT_MAX; lia.
  - split; cbn; unfold INT_MIN, INT_MAX; lia.
  - cbn. lia.
  - reflexivity.
  - assert (o = Return None) as ->.
    { vm_compute in H1. by injection H1 as <- _ _. }
    by exists s1, log1, s2, log2.
Defined.

(** X8: one whole service, with nothing in between: visitShop seats the
    customer, helloCustomer returns at once, byeCustomer reaches its wait,
    leaveShop then pays without waiting, and byeCustomer finishes.  At the
    end the chairs and the four counters are what they were before the visit;
    the slot is out of service and its [money_paid_] is left at true. *)
Theorem X8_service_cycle (custID b : Z) (s0 : Shop) :
  wf s0 → room s0 → INT_MIN + 1 < sleeping_barbs_ s0 →
  INT_MIN < custID → custID ≠ 0 →
  max_waiting_cust_ s0 = 0 ∨ max_waiting_cust_ s0 ≠ waiting_customers_ s0 →
  first_empty s0 b →
  ∃ s1 s2 s3 s4 l1 l2 l3 l4 l5,
    run (VisitShop custID) s0 = Some (Return (Some b), s1, l1) ∧
    run (HelloCustomer b) s1 = Some (Return None, s1, l2) ∧
    run (ByeCustomer b) s1 =
      Some (Block (cond_barber_paid_ b) (ByeCustomer_woken b), s2, l3) ∧
    run (LeaveShop custID b) s2 = Some (Return None, s3, l4) ∧
    run (ByeCustomer_woken b) s3 = Some (Return None, s4, l5) ∧
    customer_in_chair_ s4 = customer_in_chair_ s0 ∧
    waiting_customers_ s4 = waiting_customers_ s0 ∧
    sleeping_barbs_ s4 = sleeping_barbs_ s0 ∧
    cust_drops_ s4 = cust_drops_ s0 ∧
    serving s4 b = Some false ∧ paid s4 b = Some true ∧
    (∀ j, j ≠ b → serving s4 j = serving s0 j ∧ paid s4 j = paid s0 j).
Proof.
  intros Hwf [Hsb Hd Hw] Hsb2 Hc Hnz Hfree Hfe.
  pose proof Hwf as [? ? ? ? ?]. pose proof Hfe as (Hb & Hz & _).
  set (s1 := mark_service b true (take_chair custID b s0)).
  set (s2 := mark_paid b false (mark_service b false s1)).
  set (s3 := mark_paid b true s2).
  set (s4 := clear_chair b s3).
  assert (He1 : effect (VisitShop custID) s0 (Return (Some b)) s1)
    by by apply visit_seated.
  assert (Ho1 : occupant s1 b = Some custID).
  { unfold s1. slots. by rewrite decide_True. }
  assert (He2 : effect (HelloCustomer b) s1 (Return None) s1)
    by (apply (hello_starts _ b custID); [by left|done..]).
  assert (He3 : effect (ByeCustomer b) s1
                  (Block (cond_barber_paid_ b) (ByeCustomer_woken b)) s2)
    by (apply bye_done; cbn; rewrite ?length_insert; lia).
  assert (Hs2 : serving s2 b = Some false).
  { unfold s2, s1. slots. by rewrite decide_True. }
  assert (He4 : effect (LeaveShop custID b) s2 (Return None) s3).
  { apply (leave_pays _ custID); [by left|done|].
    cbn. rewrite ?length_insert. lia. }
  assert (He5 : effect (ByeCustomer_woken b) s3 (Return None) s4)
    by (apply bye_clears; cbn; rewrite ?length_insert; lia).
  pose proof (effect_wf _ _ _ _ He1 Hwf) as Hwf1.
  pose proof (effect_wf _ _ _ _ He3 Hwf1) as Hwf2.
  pose proof (effect_wf _ _ _ _ He4 Hwf2) as Hwf3.
  assert (Hroom1 : room s1) by (split; cbn; unfold INT_MIN, INT_MAX in *; lia).
  assert (Hroom2 : room s2) by (by destruct Hroom1).
  assert (Hroom3 : room s3) by (by destruct Hroom1).
  destruct (effect_run (VisitShop custID) _ _ _ Hwf (mk_room _ Hsb Hd Hw) Hc He1)
    as [l1 H1].
  destruct (effect_run (HelloCustomer b) _ _ _ Hwf1 Hroom1 Hb He2) as [l2 H2].
  destruct (effect_run (ByeCustomer b) _ _ _ Hwf1 Hroom1 Hb He3) as [l3 H3].
  destruct (effect_run (LeaveShop custID b) _ _ _ Hwf2 Hroom2 (conj Hc Hb) He4)
    as [l4 H4].
  destruct (effect_run (ByeCustomer_woken b) _ _ _ Hwf3 Hroom3 Hb He5)
    as [l5 H5].
  exists s1, s2, s3, s4, l1, l2, l3, l4, l5.
  repeat (split; [done|]). split.
  { cbn. apply occupant_Some in Hz as [_ Hz].
    rewrite list_insert_insert_eq. by apply list_insert_id. }
  split; [reflexivity|]. split; [cbn; lia|]. split; [reflexivity|].
  assert (Hlen : 0 <= b < Z.of_nat (length (in_service_ s0))) by lia.
  assert (Hlenp : 0 <= b < Z.of_nat (length (money_paid_ s0))) by lia.
  assert (Hsv : ∀ j, serving s4 j =
                     if decide (j = b) then Some false else serving s0 j).
  { intros j. unfold s4, s3, s2, s1. slots.
    destruct (decide (j = b)); done. }
  assert (Hpd : ∀ j, paid s4 j =
                     if decide (j = b) then Some true else paid s0 j).
  { intros j.
    change (paid s4 j) with
      (paid (mark_paid b true (mark_paid b false s0)) j).
    rewrite !paid_insert by (cbn; rewrite ?length_insert; lia).
    destruct (decide (j = b)); done. }
  split; [rewrite Hsv; by rewrite decide_True|].
  split; [rewrite Hpd; by rewrite decide_True|].
  intros j Hj. rewrite Hsv, Hpd. by rewrite !decide_False.
Qed.

Lemma X8_service_cycle_witness :
  ∃ s4 l5 s3,
    run (ByeCustomer_woken 0) s3 = Some (Return None, s4, l5) ∧
    customer_in_chair_ s4 = customer_in_chair_ (Shop_new 1 3) ∧
    sleeping_barbs_ s4 = 0 ∧ paid s4 0 = Some true.
Proof.
  destruct (X8_service_cycle 1 0 (Shop_new 1 3))
    as (s1 & s2 & s3 & s4 & l1 & l2 & l3 & l4 & l5 &
        _ & _ & _ & _ & H5 & Hc & _ & Hs & _ & _ & Hp & _).
  - apply Shop_new_wf; unfold INT_MIN, INT_MAX; lia.
  - apply Shop_new_room; unfold INT_MIN, INT_MAX; lia.
  - cbn. unfold INT_MIN. lia.
  - unfold INT_MIN. lia.
  - lia.
  - right. cbn. lia.
  - split; [cbn; lia|]. split; [reflexivity|]. intros j Hj. lia.
  - exists s4, l5, s3. split; [exact H5|]. split; [exact Hc|].
    split; [exact Hs|exact Hp].
Defined.

(** X9: the barber does not see customer 0.  After visitShop(0) has returned
    a chair, helloCustomer for that chair still finds it empty and blocks,
    at its entry as well as after a wake-up. *)
Theorem X9_customer_zero_is_not_seen (p : pc) (b : Z) (s s' : Shop)
    (log : list event) :
  wf s → room s' →
  run (VisitShop 0) s = Some (Return (Some b), s', log) → b ≠ -1 →
  hello_pc p b →
  ∃ s'' log',
    run p s' =
      Some (Block (cond_barber_sleeping_ b) (HelloCustomer_loop b), s'', log').
Proof.
  intros Hwf Hroom' Hrun Hb Hp. pose proof Hwf as [? ? ? ? ?].
  apply run_effect in Hrun; [|done].
  pose proof (effect_wf _ _ _ _ Hrun Hwf) as Hwf'.
  assert (Hz' : occupant s' b = Some 0 ∧ 0 <= b < max_working_barb_ s').
  { inversion Hrun; subst; try done.
    match goal with H : first_empty _ _ |- _ => destruct H as (Hr & Hz & _) end.
    split; [|done]. slots. by rewrite decide_True. }
  destruct Hz' as [Hz' Hr'].
  assert (Hok : pc_ok p s') by (destruct Hp as [-> | ->]; done).
  destruct (run_total p s' Hwf' Hroom' Hok) as (o & s'' & log' & Hrun' & He).
  exists s'', log'. rewrite Hrun'. do 3 f_equal.
  destruct Hp as [-> | ->]; inv_effect He; try done; congruence.
Qed.

Lemma X9_customer_zero_is_not_seen_witness :
  ∃ s' log s'' log',
    run (VisitShop 0) (Shop_new 1 3) = Some (Return (Some 0), s', log) ∧
    run (HelloCustomer_loop 0) s' =
      Some (Block (cond_barber_sleeping_ 0) (HelloCustomer_loop 0), s'', log').
Proof.
  destruct (run (VisitShop 0) (Shop_new 1 3)) as [[[o s'] log]|] eqn:Hrun;
    [|vm_compute in Hrun; discriminate].
  assert (o = Return (Some 0)) as ->.
  { vm_compute in Hrun. by injection Hrun as <- _ _. }
  assert (Hwf : wf (Shop_new 1 3))
    by (apply Shop_new_wf; unfold INT_MIN, INT_MAX; lia).
  assert (Hroom : room s').
  { vm_compute in Hrun. injection Hrun as <- _.
    split; cbn; unfold INT_MIN, INT_MAX; lia. }
  destruct (X9_customer_zero_is_not_seen (HelloCustomer_loop 0) 0 _ _ _
              Hwf Hroom Hrun) as (s'' & log' & H); [lia|by right|].
  by exists s', log, s'', log'.
Defined.

(** * More on the runs *)

(** X10: from a new Shop, and whatever threads are created and however they
    are scheduled, [waiting_customers_] is the number of threads that sit on
    a waiting chair inside visitShop, and [cust_drops_] is the number of
    visitShop calls that have returned -1. *)
Theorem X10_counters_count_threads (nb nc : Z)
    (P : machine → thread → Prop) (m : machine) :
  INT_MIN <= nb <= INT_MAX → INT_MIN <= nc <= INT_MAX →
  steps P (fresh nb nc) m →
  waiting_customers_ (shop m) = tally in_waiting (threads m) ∧
  cust_drops_ (shop m) = tally dropped (threads m).
Proof.
  intros Hb Hc Hs.
  pose proof (Shop_new_wf _ _ Hb Hc) as Hwf. split.
  - by destruct (steps_waiting _ _ _ Hs Hwf (fresh_waiting_inv nb nc Hc)).
  - pose proof (steps_drops _ _ _ Hs Hwf) as Hd. cbn in Hd. lia.
Qed.

Lemma X10_counters_count_threads_witness :
  ∃ m, steps anyone (fresh 1 1) m ∧
       waiting_customers_ (shop m) = 1 ∧ cust_drops_ (shop m) = 1.
Proof.
  assert (∃ m, steps anyone (fresh 1 1) m ∧
               tally in_waiting (threads m) = 1 ∧
               tally dropped (threads m) = 1) as (m & Hs & Hw & Hd).
  { eexists. split.
    - act (Spawn (mkThread Caller (Ready (VisitShop 1)))). act (Run 0).
      act (Spawn (mkThread Caller (Ready (VisitShop 2)))). act (Run 1).
      act (Spawn (mkThread Caller (Ready (VisitShop 3)))). act (Run 2).
      apply rtc_refl.
    - split; reflexivity. }
  exists m. split; [done|].
  destruct (X10_counters_count_threads 1 1 anyone m) as [-> ->];
    [unfold INT_MIN, INT_MAX; lia..|done|done].
Defined.

Lemma step_policy P Q m m' :
  (∀ m0 t, P m0 t → Q m0 t) → step P m m' → step Q m m'.
Proof.
  intros HPQ Hs. destruct Hs.
  - by eapply step_run.
  - by eapply step_wake.
  - apply step_spawn; [done|]. by apply HPQ.
Qed.

Lemma steps_policy P Q m m' :
  (∀ m0 t, P m0 t → Q m0 t) → steps P m m' → steps Q m m'.
Proof.
  intros HPQ. induction 1; [apply rtc_refl|].
  eapply rtc_l; [by eapply step_policy|done].
Qed.

Lemma main_threads_elem nb nc ncust st m0 t :
  main nb nc ncust st = Some m0 → t ∈ threads m0 →
  (∃ i, 0 <= i < nb ∧ t = barber_thread i) ∨
  (∃ i, 0 <= i < ncust ∧ t = customer_thread i).
Proof.
  intros Hm Ht. apply main_Some in Hm as (_ & _ & _ & ->). cbn in Ht.
  apply elem_of_app in Ht as [Ht|Ht];
    apply list_elem_of_fmap in Ht as (i & -> & Hi);
    apply elem_of_seqZ in Hi; [left|right]; exists i; (split; [lia|done]).
Qed.

Lemma main_protocol_inv nb nc ncust st m0 :
  nb <= INT_MAX → nc <= INT_MAX →
  main nb nc ncust st = Some m0 → protocol_inv m0.
Proof.
  intros Hb Hc Hm.
  destruct (main_init _ _ _ _ _ Hb Hc Hm) as (Hwf & _).
  split; [done| | |].
  - apply main_Some in Hm as (_ & _ & _ & ->). cbn.
    intros j Hj. apply serving_Some in Hj as [_ Hj]. cbn in Hj.
    unfold new_array in Hj. apply lookup_replicate in Hj as [[=] _].
  - intros j t Ht. apply list_elem_of_lookup_2 in Ht.
    destruct (main_threads_elem _ _ _ _ _ _ Hm Ht)
      as [(i & Hi & ->)|(i & Hi & ->)]; cbn; [done|lia].
  - apply main_Some in Hm as (_ & _ & _ & ->). cbn.
    intros i j ti tj b Hi Hj Hbi Hbj.
    assert (Hcust : ∀ k t, (customer_thread <$> seqZ 0 ncust) !! k = Some t →
                           barber_of t = None).
    { intros k t Hk. apply list_lookup_fmap_Some in Hk as (x & -> & _). done. }
    assert (Hbarb : ∀ k t, (barber_thread <$> seqZ 0 nb) !! k = Some t →
                           barber_of t = Some (Z.of_nat k)).
    { intros k t Hk. apply list_lookup_fmap_Some in Hk as (x & -> & Hx).
      apply lookup_seqZ in Hx as [-> _]. cbn. by f_equal. }
    apply lookup_app_Some in Hi as [Hi|[_ Hi]];
      [|apply Hcust in Hi; congruence].
    apply lookup_app_Some in Hj as [Hj|[_ Hj]];
      [|apply Hcust in Hj; congruence].
    apply Hbarb in Hi, Hj. assert (Z.of_nat i = Z.of_nat j) by congruence. lia.
Qed.

Lemma main_waiting_inv nb nc ncust st m0 :
  main nb nc ncust st = Some m0 → waiting_inv m0.
Proof.
  intros Hm. apply main_Some in Hm as (_ & Hnc & _ & ->). split; cbn.
  - rewrite tally_app.
    rewrite (tally_fmap_const in_waiting barber_thread false) by done.
    by rewrite (tally_fmap_const in_waiting customer_thread false) by done.
  - destruct (nc >=? 0) eqn:E; lia.
Qed.

(** X11: the driver keeps the documented call order by itself, so every
    state of every run of [main] has a well-formed Shop with
    [0 <= waiting_customers_ <= max_waiting_cust_] and with [in_service_[i]]
    true only if chair [i] holds a customer. *)
Theorem X11_driver_keeps_the_invariants (nb nc ncust st : Z) (m0 m : machine) :
  nb <= INT_MAX → nc <= INT_MAX →
  main nb nc ncust st = Some m0 →
  steps nobody m0 m →
  wf (shop m) ∧ waiting_ok (shop m) ∧ service_ok (shop m).
Proof.
  intros Hb Hc Hm Hs.
  pose proof (main_protocol_inv _ _ _ _ _ Hb Hc Hm) as Hinv.
  pose proof (pi_wf _ Hinv) as Hwf.
  split; [by eapply steps_wf|]. split.
  - apply waiting_inv_ok.
    eapply steps_waiting; [done|done|by eapply main_waiting_inv].
  - eapply pi_service, steps_protocol; [|done].
    eapply steps_policy; [|done]. intros ? ? [].
Qed.

Lemma X11_driver_keeps_the_invariants_witness :
  ∃ m0 m,
    main 1 0 2 1 = Some m0 ∧ schedule C9_schedule m0 = Some m ∧
    waiting_ok (shop m) ∧ service_ok (shop m).
Proof.
  eexists _, _. split; [reflexivity|]. split; [vm_compute; reflexivity|].
  eapply (X11_driver_keeps_the_invariants 1 0 2 1).
  - unfold INT_MAX. lia.
  - unfold INT_MAX. lia.
  - reflexivity.
  - eapply (schedule_steps_nobody C9_schedule); [reflexivity|].
    vm_compute. reflexivity.
Defined.

Lemma effect_capacity p s o s' :
  effect p s o s' → max_working_barb_ s' = max_working_barb_ s.
Proof. intros He. by destruct He. Qed.

Lemma effect_in_range a p s o s' :
  effect p s o s' →
  in_range s (mkThread a (Ready p)) →
  in_range s' (mkThread a (next a p o)).
Proof.
  intros He Hin k b Hk Hb.
  rewrite (effect_capacity _ _ _ _ He).
  assert (Hp : ∀ b0, slot_arg p = Some b0 → 0 <= b0 < max_working_barb_ s)
    by (intros b0; by apply Hin).
  clear Hin. revert Hk Hb.
  destruct He; pc_cases;
    try (match goal with H : first_empty _ _ |- _ =>
           pose proof (first_empty_nonneg _ _ H) as Hnn;
           destruct H as (? & _ & _) end);
    destruct a; cbn; rewrite ?Hnn; cbn;
    intros [= <-] [= <-]; first [done | by apply Hp].
Qed.

Lemma step_in_range m m' :
  step nobody m m' → wf (shop m) →
  Forall (in_range (shop m)) (threads m) →
  Forall (in_range (shop m')) (threads m') ∧
  length (threads m') = length (threads m).
Proof.
  intros Hs Hwf Hall.
  destruct (step_inv _ _ _ Hs Hwf)
    as [(i & a & p & o & Ht & He & ->)|[(i & a & c & k & Ht & -> & ->)|(t & _ & [] & _)]].
  - split; [|by rewrite length_insert].
    apply Forall_insert.
    + eapply Forall_impl; [done|]. intros t Hin p0 b Hp0 Hb.
      rewrite (effect_capacity _ _ _ _ He). by eapply Hin.
    + eapply effect_in_range; [done|].
      by apply (Forall_lookup_1 _ _ _ _ Hall Ht).
  - split; [|by rewrite length_insert].
    apply Forall_insert; [done|].
    pose proof (Forall_lookup_1 _ _ _ _ Hall Ht) as Hin.
    intros p0 b Hp0 Hb. by eapply Hin.
Qed.

Lemma steps_in_range m m' :
  steps nobody m m' → wf (shop m) →
  Forall (in_range (shop m)) (threads m) →
  Forall (in_range (shop m')) (threads m') ∧
  length (threads m') = length (threads m).
Proof.
  induction 1 as [|m1 m2 m3 Hs _ IH]; intros Hwf Hall; [done|].
  destruct (step_in_range _ _ Hs Hwf Hall) as [Hall2 Hlen2].
  destruct (IH (step_wf _ _ _ Hs Hwf) Hall2) as [Hall3 Hlen3].
  split; [done|]. lia.
Qed.

(** X12: in every run of [main], each call in flight of leaveShop,
    helloCustomer or byeCustomer names a barber that lies inside each of the
    three arrays: the driver never makes the monitor index out of bounds. *)
Theorem X12_driver_stays_in_bounds (nb nc ncust st : Z) (m0 m : machine)
    (t : thread) (p : pc) (b : Z) :
  nb <= INT_MAX → nc <= INT_MAX →
  main nb nc ncust st = Some m0 →
  steps nobody m0 m →
  t ∈ threads m → pc_of t = Some p → slot_arg p = Some b →
  0 <= b < Z.of_nat (length (customer_in_chair_ (shop m))) ∧
  0 <= b < Z.of_nat (length (in_service_ (shop m))) ∧
  0 <= b < Z.of_nat (length (money_paid_ (shop m))).
Proof.
  intros Hb Hc Hm Hs Ht Hp Hslot.
  destruct (main_init _ _ _ _ _ Hb Hc Hm) as (Hwf & _).
  assert (Hall : Forall (in_range (shop m0)) (threads m0)).
  { apply Forall_forall. intros t0 Ht0.
    destruct (main_threads_elem _ _ _ _ _ _ Hm Ht0)
      as [(i & Hi & ->)|(i & Hi & ->)].
    - apply main_Some in Hm as (Hnb & _ & _ & ->).
      intros p0 b0 [= <-] [= <-]. cbn.
      destruct (nb >? 0) eqn:E; lia.
    - intros p0 b0 [= <-] [=]. }
  destruct (steps_in_range _ _ Hs Hwf Hall) as [Hall' _].
  rewrite Forall_forall in Hall'.
  pose proof (Hall' t Ht p b Hp Hslot) as Hr.
  destruct (steps_wf _ _ _ Hs Hwf). lia.
Qed.

Lemma X12_driver_stays_in_bounds_witness :
  ∃ m0 m,
    main 1 3 1 1 = Some m0 ∧
    schedule [Run 1] m0 = Some m ∧
    mkThread Customer (Ready (LeaveShop 1 0)) ∈ threads m ∧
    0 <= 0 < Z.of_nat (length (in_service_ (shop m))).
Proof.
  eexists _, _. split; [reflexivity|]. split; [vm_compute; reflexivity|].
  assert (Hin : mkThread Customer (Ready (LeaveShop 1 0)) ∈
                [mkThread Barber (Ready (HelloCustomer 0));
                 mkThread Customer (Ready (LeaveShop 1 0))])
    by (right; left).
  split; [exact Hin|].
  eapply (X12_driver_stays_in_bounds 1 3 1 1 _ _
            (mkThread Customer (Ready (LeaveShop 1 0))) (LeaveShop 1 0) 0).
  - unfold INT_MAX. lia.
  - unfold INT_MAX. lia.
  - reflexivity.
  - eapply (schedule_steps_nobody [Run 1]); [reflexivity|].
    vm_compute. reflexivity.
  - exact Hin.
  - reflexivity.
  - reflexivity.
Defined.

(** X13: in every run of [main] no thread is created or lost; a barber thread
    never returns; and a customer thread that has returned either got -1 from
    visitShop or came out of leaveShop. *)
Theorem X13_driver_threads (nb nc ncust st : Z) (m0 m : machine) (t : thread) :
  nb <= INT_MAX → nc <= INT_MAX →
  main nb nc ncust st = Some m0 →
  steps nobody m0 m →
  t ∈ threads m →
  length (threads m) = (Z.to_nat nb + Z.to_nat ncust)%nat ∧
  role t ≠ Caller ∧
  (role t = Barber → finished t = false) ∧
  (role t = Customer → finished t = true →
   dropped t = true ∨ served t = true).
Proof.
  intros Hb Hc Hm Hs Ht.
  destruct (main_init _ _ _ _ _ Hb Hc Hm) as (Hwf & Hinv & _).
  destruct (steps_driver _ _ Hs Hwf Hinv) as [Hinv' _].
  split.
  - assert (Hlen : ∀ m1 m2, step nobody m1 m2 →
                            length (threads m2) = length (threads m1)).
    { intros m1 m2 Hst. destruct Hst; cbn; rewrite ?length_insert; done. }
    assert (Hlens : length (threads m) = length (threads m0)).
    { clear -Hs Hlen. induction Hs as [|m1 m2 m3 Hst _ IH]; [done|].
      rewrite IH. by apply Hlen. }
    rewrite Hlens. apply main_Some in Hm as (_ & _ & _ & ->). cbn.
    by rewrite length_app, !length_fmap, !length_seqZ.
  - unfold driver_inv in Hinv'. rewrite Forall_forall in Hinv'.
    specialize (Hinv' t Ht).
    destruct t as [[] [p|c p|p r]]; cbn in *; try done.
    split; [done|]. split; [done|]. intros _ _.
    apply orb_true_iff in Hinv'. done.
Qed.

Lemma X13_driver_threads_witness :
  ∃ m0 m,
    main 1 0 2 1 = Some m0 ∧ schedule C9_schedule m0 = Some m ∧
    length (threads m) = 3%nat.
Proof.
  eexists _, _. split; [reflexivity|]. split; [vm_compute; reflexivity|].
  eapply (X13_driver_threads 1 0 2 1 _ _
            (mkThread Barber (Ready (HelloCustomer 0)))).
  - unfold INT_MAX. lia.
  - unfold INT_MAX. lia.
  - reflexivity.
  - eapply (schedule_steps_nobody C9_schedule); [reflexivity|].
    vm_compute. reflexivity.
  - left.
Defined.

(** Every path of [effect] is taken whatever [sleeping_barbs_] holds. *)
Lemma effect_ignores_sleeping p s o s' v :
  effect p s o s' →
  ∃ v', effect p (set_sleeping_barbs_ v s) o (set_sleeping_barbs_ v' s').
Proof.
  intros He. destruct He.
  - exists v. by apply (visit_no_chair custID (set_sleeping_barbs_ v s)).
  - exists v. by apply (visit_no_seat custID (set_sleeping_barbs_ v s)).
  - exists (v - 1). by apply (visit_seated custID (set_sleeping_barbs_ v s)).
  - exists v. by apply (visit_waits custID (set_sleeping_barbs_ v s)).
  - exists v. by apply (woken_no_chair custID (set_sleeping_barbs_ v s)).
  - exists (v - 1). by apply (woken_seated custID (set_sleeping_barbs_ v s)).
  - exists v. by apply (leave_waits p custID barbID (set_sleeping_barbs_ v s)).
  - exists v. by apply (leave_pays p custID barbID (set_sleeping_barbs_ v s)).
  - exists (v + 1). by apply (hello_sleeps barbID (set_sleeping_barbs_ v s)).
  - exists v. by apply (hello_waits barbID (set_sleeping_barbs_ v s)).
  - exists v. by apply (hello_waits_again barbID (set_sleeping_barbs_ v s)).
  - exists v. by apply (hello_starts p barbID custID (set_sleeping_barbs_ v s)).
  - exists v. by apply (bye_done barbID (set_sleeping_barbs_ v s)).
  - exists (v + 1). by apply (bye_clears barbID (set_sleeping_barbs_ v s)).
  - exists v. apply (drops_read (set_sleeping_barbs_ v s)).
Qed.

(** X14: [sleeping_barbs_] is counted up and down but never read: with any
    other value in it (away from the ends of [int]), every section of every
    method ends in the same way and leaves the same chairs, the same
    [in_service_] and [money_paid_], and the same other counters. *)
Theorem X14_sleeping_barbs_is_never_read (p : pc) (s : Shop) (v : Z) :
  wf s → room s → pc_ok p s → INT_MIN < v < INT_MAX →
  ∃ o s1 log1 s2 log2,
    run p s = Some (o, s1, log1) ∧
    run p (set_sleeping_barbs_ v s) = Some (o, s2, log2) ∧
    customer_in_chair_ s2 = customer_in_chair_ s1 ∧
    in_service_ s2 = in_service_ s1 ∧
    money_paid_ s2 = money_paid_ s1 ∧
    waiting_customers_ s2 = waiting_customers_ s1 ∧
    cust_drops_ s2 = cust_drops_ s1.
Proof.
  intros Hwf Hroom Hp Hv.
  destruct (run_total p s Hwf Hroom Hp) as (o & s1 & log1 & Hrun & He).
  destruct (effect_ignores_sleeping _ _ _ _ v He) as [v' He'].
  assert (Hwf' : wf (set_sleeping_barbs_ v s)) by (by destruct Hwf).
  assert (Hroom' : room (set_sleeping_barbs_ v s)) by (by destruct Hroom).
  assert (Hp' : pc_ok p (set_sleeping_barbs_ v s)) by (by destruct p).
  destruct (effect_run _ _ _ _ Hwf' Hroom' Hp' He') as [log2 Hrun'].
  exists o, s1, log1, (set_sleeping_barbs_ v' s1), log2. done.
Qed.

Lemma X14_sleeping_barbs_is_never_read_witness :
  ∃ s1 log1 s2 log2,
    run (VisitShop 1) (Shop_new 1 3) = Some (Return (Some 0), s1, log1) ∧
    run (VisitShop 1) (set_sleeping_barbs_ (-5) (Shop_new 1 3)) =
      Some (Return (Some 0), s2, log2) ∧
    customer_in_chair_ s2 = customer_in_chair_ s1.
Proof.
  destruct (X14_sleeping_barbs_is_never_read (VisitShop 1) (Shop_new 1 3) (-5))
    as (o & s1 & log1 & s2 & log2 & H1 & H2 & Hc & _).
  - apply Shop_new_wf; unfold INT_MIN, INT_MAX; lia.
  - apply Shop_new_room; unfold INT_MIN, INT_MAX; lia.
  - cbn. unfold INT_MIN. lia.
  - unfold INT_MIN, INT_MAX. lia.
  - assert (o = Return (Some 0)) as ->.
    { vm_compute in H1. by injection H1 as <- _ _. }
    by exists s1, log1, s2, log2.
Defined.

(** X15: [main] starts a run exactly when the numbers of barbers, of
    customers and the service time are at least 1 and the number of chairs is
    at least 0; the Shop then has exactly that many barbers and waiting
    chairs (the defaults of the constructor are never used), the barbers are
    numbered from 0 and the customers from 1. *)
Theorem X15_main_validates_its_arguments (nb nc ncust st : Z) :
  (is_Some (main nb nc ncust st) ↔
   1 <= nb ∧ 0 <= nc ∧ 1 <= ncust ∧ 1 <= st) ∧
  (∀ m0, main nb nc ncust st = Some m0 →
     max_working_barb_ (shop m0) = nb ∧
     max_waiting_cust_ (shop m0) = nc ∧
     threads m0 =
       ((λ i, mkThread Barber (Ready (HelloCustomer i))) <$> seqZ 0 nb) ++
       ((λ i, mkThread Customer (Ready (VisitShop i))) <$> seqZ 1 ncust)).
Proof.
  split.
  - split.
    + intros [m0 Hm]. unfold main in Hm.
      destruct (nb <? 1) eqn:E1; [done|]. destruct (ncust <? 1) eqn:E2; [done|].
      destruct (st <? 1) eqn:E3; [done|]. destruct (nc <? 0) eqn:E4; [done|].
      lia.
    + intros (H1 & H2 & H3 & H4). unfold main.
      assert ((nb <? 1) = false) as -> by (apply Z.ltb_ge; lia).
      assert ((ncust <? 1) = false) as -> by (apply Z.ltb_ge; lia).
      assert ((st <? 1) = false) as -> by (apply Z.ltb_ge; lia).
      assert ((nc <? 0) = false) as -> by (apply Z.ltb_ge; lia).
      by eexists.
  - intros m0 Hm. apply main_Some in Hm as (Hnb & Hnc & _ & ->). cbn.
    split; [destruct (nb >? 0) eqn:E; lia|].
    split; [destruct (nc >=? 0) eqn:E; lia|].
    f_equal. unfold customer_thread.
    replace (seqZ 1 ncust) with (Z.add 1 <$> seqZ 0 ncust)
      by apply (fmap_add_seqZ 1 0 ncust).
    rewrite <- list_fmap_compose.
    apply list_fmap_ext. intros _ i _. cbn. do 3 f_equal. lia.
Qed.

Lemma X15_main_validates_its_arguments_witness :
  main 0 3 5 1 = None ∧ main 2 (-1) 5 1 = None ∧
  ∃ m0, main 2 0 3 1 = Some m0 ∧ max_working_barb_ (shop m0) = 2 ∧
        length (threads m0) = 5%nat.
Proof.
  split; [reflexivity|]. split; [reflexivity|].
  destruct (X15_main_validates_its_arguments 2 0 3 1) as [[_ Hsome] Hshape].
  destruct Hsome as [m0 Hm]; [lia|].
  exists m0. split; [exact Hm|].
  destruct (Hshape m0 Hm) as (Hb & _ & Ht). split; [exact Hb|].
  rewrite Ht. reflexivity.
Defined.
